(** * WasmBoy memory service: linear memory, save states and crash recovery

    A shallow embedding of [lib/memory/memory.js]: the address map, the
    cartridge header and cartridge RAM readers, the save-state codec, and the
    [WasmBoyMemoryService] methods that talk to the key-value store and to
    [localStorage]; followed by the properties of the specification that
    concern them. *)

From stdpp Require Import base option list gmap strings.
From Stdlib Require Import ZArith Lia.

Local Open Scope Z_scope.

(** ** JavaScript values used by the service *)

(** A [Uint8Array] is a list of numbers, each in [0, 255] once it went through
    a typed-array store. Reading an index out of range yields [undefined]
    (stdpp's [!!] yields [None]); writing an index out of range does nothing
    (as stdpp's [<[i:=v]>]); the stored number is converted with [ToUint8]. *)
Definition ToUint8 (v : option Z) : Z :=
  match v with
  | Some z => z mod 256
  | None => 0 (* undefined converts to NaN, stored as 0 *)
  end.

(** [new Uint8Array(length)] *)
Definition newUint8Array (len : nat) : list Z := replicate len 0.

(** [new Uint8Array(array)] *)
Definition Uint8Array_from (a : list Z) : list Z :=
  (λ z, ToUint8 (Some z)) <$> a.

(** [typedArray[i] = v] *)
Definition typedSet (a : list Z) (i : nat) (v : option Z) : list Z :=
  <[i := ToUint8 v]> a.

(** [Array.prototype.slice.call(x)] for [x] a typed array or [false]:
    [false] has no [length], so the result is the empty array. *)
Definition Array_slice (x : option (list Z)) : list Z := default [] x.

(** Truthiness of a number or [undefined] ([NaN] does not occur here). *)
Definition truthy (v : option Z) : bool :=
  match v with
  | Some z => negb (z =? 0)
  | None => false
  end.

(** Every element is a byte: what holds of the contents of a typed array. *)
Definition is_uint8array (a : list Z) : Prop := Forall (λ b, 0 ≤ b < 256) a.

(** [for (let i = start; i < start + n; i++) s = body i s] *)
Fixpoint for_loop {St : Type} (i n : nat) (body : nat → St → St) (s : St) : St :=
  match n with
  | O => s
  | S n' => for_loop (S i) n' body (body i s)
  end.

(** ** Memory constants *)

Module MEMORY_ADDRESSES.
Definition CARTRIDGE_RAM : nat := Z.to_nat 0x008400.
Definition CARTRIDGE_ROM : nat := Z.to_nat 0x073800.
Module WASMBOY_INTERNAL_STATE.
Definition LOCATION : nat := Z.to_nat 0x000000.
Definition SIZE : nat := Z.to_nat 0x000400.
End WASMBOY_INTERNAL_STATE.
Module GAMEBOY_MEMORY.
Definition LOCATION : nat := Z.to_nat 0x000400.
Definition SIZE : nat := Z.to_nat 0x008000.
End GAMEBOY_MEMORY.
End MEMORY_ADDRESSES.
Import MEMORY_ADDRESSES.

Definition WASMBOY_UNLOAD_STORAGE : string := "WASMBOY_UNLOAD_STORAGE".

(** ** Cartridge header and cartridge RAM *)

(** [getCartridgeHeader]: [None] is the [false] returned without a memory. *)
Definition getCartridgeHeader (wasmByteMemory : option (list Z)) : option (list Z) :=
  match wasmByteMemory with
  | None => None
  | Some mem =>
      let headerLength := (Z.to_nat 0x014F - Z.to_nat 0x0134)%nat in
      let headerArray := newUint8Array headerLength in
      Some (for_loop 0 (S headerLength)
              (λ i headerArray,
                 typedSet headerArray i
                   (mem !! (CARTRIDGE_ROM + Z.to_nat 0x0134 + i)%nat))
              headerArray)
  end.

(** The [else if] chain of [getCartridgeRam] that assigns [ramSize];
    [None] is [undefined]. With [cartridgeType] undefined every comparison is
    false. *)
Definition ramSizeOfType (cartridgeType : option Z) : option Z :=
  match cartridgeType with
  | None => None
  | Some t =>
      if (0x01 <=? t) && (t <=? 0x03) then Some 0x8000
      else if (0x05 <=? t) && (t <=? 0x06) then Some 0x800
      else if (0x0F <=? t) && (t <=? 0x13) then Some 0x8000
      else if (0x19 <=? t) && (t <=? 0x1E) then Some 0x20000
      else None
  end.

(** RAM-size resolution as [getCartridgeRam] performs it: the early
    [return false] on type [0x00], then the chain, then [if (!ramSize)]. *)
Definition resolveRamSize (cartridgeType : option Z) : option Z :=
  if bool_decide (cartridgeType = Some 0x00) then None
  else
    let ramSize := ramSizeOfType cartridgeType in
    if negb (truthy ramSize) then None else ramSize.

(** [getCartridgeRam]: [None] is the [false] it returns. *)
Definition getCartridgeRam (wasmByteMemory : option (list Z)) : option (list Z) :=
  match wasmByteMemory with
  | None => None
  | Some mem =>
      let cartridgeType := mem !! (CARTRIDGE_ROM + Z.to_nat 0x0147)%nat in
      match resolveRamSize cartridgeType with
      | None => None
      | Some ramSize =>
          let cartridgeRam := newUint8Array (Z.to_nat ramSize) in
          Some (for_loop 0 (Z.to_nat ramSize)
                  (λ i cartridgeRam,
                     typedSet cartridgeRam i (mem !! (CARTRIDGE_RAM + i)%nat))
                  cartridgeRam)
      end
  end.

(** The table of the specification, section 4.3, written from its words. *)
Definition ramSizeTable (b : Z) : option Z :=
  if b =? 0 then None
  else if (1 <=? b) && (b <=? 3) then Some 32768
  else if (5 <=? b) && (b <=? 6) then Some 2048
  else if (15 <=? b) && (b <=? 19) then Some 32768
  else if (25 <=? b) && (b <=? 30) then Some 131072
  else None.

(** ** Save states, the heap and the world *)

(** The object under the [wasmBoyMemory] property of a save state.
    [cartridgeRam] is [None] when it holds the [false] that
    [getCartridgeRam] returns. *)
Record WasmBoyMemoryObj := {
  wasmBoyInternalState : list Z;
  gameBoyMemory : list Z;
  cartridgeRam : option (list Z);
}.

Global Instance WasmBoyMemoryObj_inhabited : Inhabited WasmBoyMemoryObj :=
  populate {| wasmBoyInternalState := []; gameBoyMemory := []; cartridgeRam := None |}.

Definition loc := nat.

(** A save-state object of the running program. Its [wasmBoyMemory] property
    is a reference: the object it names lives in the heap and may be shared. *)
Record SaveState := {
  wasmBoyMemory : loc;
  date : option Z;
  name : option string;
  isAuto : option bool;
}.

(** A save state by value: what a structured clone (the key-value store) or
    [JSON.stringify] keeps of a save-state object. *)
Record SaveStateData := {
  d_wasmBoyMemory : WasmBoyMemoryObj;
  d_date : option Z;
  d_name : option string;
  d_isAuto : option bool;
}.

(** The heap cell allocated for [WASMBOY_SAVE_STATE_SCHEMA.wasmBoyMemory]. *)
Definition SCHEMA_MEMORY : loc := 0%nat.

Definition WASMBOY_SAVE_STATE_SCHEMA : SaveState :=
  {| wasmBoyMemory := SCHEMA_MEMORY; date := None; name := None; isAuto := None |}.

(** [Object.assign({}, source)]: a new object with the properties of
    [source]; a property holding a reference is copied as that reference. *)
Definition Object_assign (source : SaveState) : SaveState :=
  {| wasmBoyMemory := wasmBoyMemory source; date := date source;
     name := name source; isAuto := isAuto source |}.

(** The record kept per cartridge header in the key-value store. A property
    is [None] when absent (or, for [co_cartridgeRam], [false]). *)
Record CartridgeObject := {
  co_cartridgeRam : option (list Z);
  co_saveStates : option (list SaveStateData);
}.

(** The document under [WASMBOY_UNLOAD_STORAGE]. [JSON.stringify] followed by
    [JSON.parse] is the identity on these documents (arrays of numbers,
    numbers and booleans; an [undefined] property is dropped and reads back
    as [undefined]), so the stored text is modelled by the document. *)
Record UnloadStorageObject := {
  us_header : list Z;
  us_cartridgeRam : list Z;
  us_saveState : option SaveStateData;
}.

(** The exports of the WebAssembly core, acting on the linear memory that
    the service views. *)
Record WasmInstance := {
  exports_initialize : Z → list Z → list Z;
  exports_saveState : list Z → list Z;
  exports_loadState : list Z → list Z;
}.

Inductive error :=
  | TypeError
  | Rejection (message : string)
  | StoreUnavailable.

Inductive event :=
  | AddEventListener (type : string)
  | GetItem (key : string)
  | SetItem (key : string)
  | RemoveItem (key : string)
  | IdbGet (key : option (list Z))
  | IdbSet (key : option (list Z))
  | CallInitialize
  | CallSaveState
  | CallLoadState.

Record World := {
  (* the WasmBoyMemoryService singleton *)
  wasmInstance : option WasmInstance;
  wasmByteMemory : option (list Z);
  loadedROM : bool;
  loadedRAM : bool;
  (* objects reachable through save states *)
  heap : gmap loc WasmBoyMemoryObj;
  (* the environment *)
  localStorage : gmap string UnloadStorageObject;
  idb : gmap (option (list Z)) CartridgeObject;
  idbFaults : list bool;
  now : Z;
  trace : list event;
}.

Definition set_wasmInstance (x : option WasmInstance) (w : World) : World :=
  {| wasmInstance := x; wasmByteMemory := wasmByteMemory w;
     loadedROM := loadedROM w; loadedRAM := loadedRAM w; heap := heap w;
     localStorage := localStorage w; idb := idb w; idbFaults := idbFaults w;
     now := now w; trace := trace w |}.

Definition set_wasmByteMemory (x : option (list Z)) (w : World) : World :=
  {| wasmInstance := wasmInstance w; wasmByteMemory := x;
     loadedROM := loadedROM w; loadedRAM := loadedRAM w; heap := heap w;
     localStorage := localStorage w; idb := idb w; idbFaults := idbFaults w;
     now := now w; trace := trace w |}.

Definition set_loadedROM (x : bool) (w : World) : World :=
  {| wasmInstance := wasmInstance w; wasmByteMemory := wasmByteMemory w;
     loadedROM := x; loadedRAM := loadedRAM w; heap := heap w;
     localStorage := localStorage w; idb := idb w; idbFaults := idbFaults w;
     now := now w; trace := trace w |}.

Definition set_heap (x : gmap loc WasmBoyMemoryObj) (w : World) : World :=
  {| wasmInstance := wasmInstance w; wasmByteMemory := wasmByteMemory w;
     loadedROM := loadedROM w; loadedRAM := loadedRAM w; heap := x;
     localStorage := localStorage w; idb := idb w; idbFaults := idbFaults w;
     now := now w; trace := trace w |}.

Definition set_localStorage (x : gmap string UnloadStorageObject) (w : World) : World :=
  {| wasmInstance := wasmInstance w; wasmByteMemory := wasmByteMemory w;
     loadedROM := loadedROM w; loadedRAM := loadedRAM w; heap := heap w;
     localStorage := x; idb := idb w; idbFaults := idbFaults w;
     now := now w; trace := trace w |}.

Definition set_idb (x : gmap (option (list Z)) CartridgeObject) (w : World) : World :=
  {| wasmInstance := wasmInstance w; wasmByteMemory := wasmByteMemory w;
     loadedROM := loadedROM w; loadedRAM := loadedRAM w; heap := heap w;
     localStorage := localStorage w; idb := x; idbFaults := idbFaults w;
     now := now w; trace := trace w |}.

Definition set_idbFaults (x : list bool) (w : World) : World :=
  {| wasmInstance := wasmInstance w; wasmByteMemory := wasmByteMemory w;
     loadedROM := loadedROM w; loadedRAM := loadedRAM w; heap := heap w;
     localStorage := localStorage w; idb := idb w; idbFaults := x;
     now := now w; trace := trace w |}.

Definition log (e : event) (w : World) : World :=
  {| wasmInstance := wasmInstance w; wasmByteMemory := wasmByteMemory w;
     loadedROM := loadedROM w; loadedRAM := loadedRAM w; heap := heap w;
     localStorage := localStorage w; idb := idb w; idbFaults := idbFaults w;
     now := now w; trace := trace w ++ [e] |}.

(** ** A monad for statements: state passing with exceptions *)

Inductive completion (A : Type) :=
  | Normal (a : A)
  | Throw (e : error).
Arguments Normal {A} a.
Arguments Throw {A} e.

Definition M (A : Type) : Type := World → completion A * World.

Definition ret {A} (a : A) : M A := λ w, (Normal a, w).
Definition throw {A} (e : error) : M A := λ w, (Throw e, w).
Definition bind {A B} (m : M A) (k : A → M B) : M B := λ w,
  match m w with
  | (Normal a, w') => k a w'
  | (Throw e, w') => (Throw e, w')
  end.
Definition gets {A} (f : World → A) : M A := λ w, (Normal (f w), w).
Definition modify (f : World → World) : M unit := λ w, (Normal tt, f w).
(** [try { m } catch (error) { h error }] *)
Definition try_catch {A} (m : M A) (h : error → M A) : M A := λ w,
  match m w with
  | (Normal a, w') => (Normal a, w')
  | (Throw e, w') => h e w'
  end.

Notation "'let*' x ':=' m 'in' k" := (bind m (λ x, k))
  (at level 10, x name, m at level 100, k at level 200).
Notation "m ';;' k" := (bind m (λ _, k))
  (at level 100, k at level 200, right associativity).

(** The state of a promise while its executor runs: [None] while pending.
    [resolve] and [reject] settle a pending promise and do nothing to a
    settled one; neither ends the executor. *)
Inductive settled :=
  | Fulfilled
  | Rejected (e : error).

Definition settle (p : option settled) (s : settled) : option settled :=
  match p with
  | None => Some s
  | Some _ => p
  end.

(** ** The collaborators *)

(** Whether the next call to the store fails: the head of the schedule, no
    failure once the schedule is used up. *)
Definition next_call_fails (w : World) : bool := default false (head (idbFaults w)).

(** Modelled from the spec: [idbKeyval] (the module [./idb]) is not among the
    sources. Section 4.5 gives it as an asynchronous [get(header)] that
    yields the record or nothing and a [set(header, record)], both of which
    may fail with [StoreUnavailable]. Whether a call fails is read from the
    schedule [idbFaults], one entry per call; values go in and out by
    structured clone, so the store holds them by value. *)
Definition idbKeyval_get (key : option (list Z)) : M (error + option CartridgeObject) := λ w,
  let fails := next_call_fails w in
  let w := set_idbFaults (tail (idbFaults w)) (log (IdbGet key) w) in
  if fails then (Normal (inl StoreUnavailable), w)
  else (Normal (inr (idb w !! key)), w).

(** Modelled from the spec: see [idbKeyval_get]. *)
Definition idbKeyval_set (key : option (list Z)) (value : CartridgeObject) : M (error + unit) := λ w,
  let fails := next_call_fails w in
  let w := set_idbFaults (tail (idbFaults w)) (log (IdbSet key) w) in
  if fails then (Normal (inl StoreUnavailable), w)
  else (Normal (inr tt), set_idb (<[key := value]> (idb w)) w).

(** [this.wasmInstance.exports.f()]: a [TypeError] without an instance. *)
Definition callExport (e : event) (f : WasmInstance → list Z → list Z) : M unit := λ w,
  match wasmInstance w with
  | None => (Throw TypeError, w)
  | Some instance =>
      (Normal tt, log e (set_wasmByteMemory (f instance <$> wasmByteMemory w) w))
  end.

(** The contents a save-state object has in heap [h]. *)
Definition snapshot (h : gmap loc WasmBoyMemoryObj) (s : SaveState) : SaveStateData :=
  {| d_wasmBoyMemory := h !!! wasmBoyMemory s; d_date := date s;
     d_name := name s; d_isAuto := isAuto s |}.

(** [object.property = value] on the object at [l]. *)
Definition store_wasmBoyInternalState (l : loc) (v : list Z) : M unit :=
  modify (λ w, set_heap (<[l := {| wasmBoyInternalState := v;
                                   gameBoyMemory := gameBoyMemory (heap w !!! l);
                                   cartridgeRam := cartridgeRam (heap w !!! l) |}]> (heap w)) w).
Definition store_gameBoyMemory (l : loc) (v : list Z) : M unit :=
  modify (λ w, set_heap (<[l := {| wasmBoyInternalState := wasmBoyInternalState (heap w !!! l);
                                   gameBoyMemory := v;
                                   cartridgeRam := cartridgeRam (heap w !!! l) |}]> (heap w)) w).
Definition store_cartridgeRam (l : loc) (v : option (list Z)) : M unit :=
  modify (λ w, set_heap (<[l := {| wasmBoyInternalState := wasmBoyInternalState (heap w !!! l);
                                   gameBoyMemory := gameBoyMemory (heap w !!! l);
                                   cartridgeRam := v |}]> (heap w)) w).

(** A new object in the heap. *)
Definition alloc (o : WasmBoyMemoryObj) : M loc := λ w,
  let l := fresh (dom (heap w)) in
  (Normal l, set_heap (<[l := o]> (heap w)) w).

(** ** The save-state codec *)

(** [getSaveState]. The three typed arrays are stored into the object that
    [saveState.wasmBoyMemory] refers to, which [Object.assign] took from the
    schema. Reading [wasmByteMemory[i]] without a memory is a [TypeError]. *)
Definition getSaveState (wasmByteMemory : option (list Z)) : M SaveState :=
  let cartridgeRam := getCartridgeRam wasmByteMemory in
  match wasmByteMemory with
  | None => throw TypeError
  | Some mem =>
      let wasmBoyInternalState := newUint8Array WASMBOY_INTERNAL_STATE.SIZE in
      let gameBoyMemory := newUint8Array GAMEBOY_MEMORY.SIZE in
      let wasmBoyInternalState :=
        for_loop 0 WASMBOY_INTERNAL_STATE.SIZE
          (λ i wasmBoyInternalState,
             typedSet wasmBoyInternalState i
               (mem !! (i + WASMBOY_INTERNAL_STATE.LOCATION)%nat))
          wasmBoyInternalState in
      let gameBoyMemory :=
        for_loop 0 GAMEBOY_MEMORY.SIZE
          (λ i gameBoyMemory,
             typedSet gameBoyMemory i (mem !! (i + GAMEBOY_MEMORY.LOCATION)%nat))
          gameBoyMemory in
      let saveState := Object_assign WASMBOY_SAVE_STATE_SCHEMA in
      store_wasmBoyInternalState (wasmBoyMemory saveState) wasmBoyInternalState;;
      store_gameBoyMemory (wasmBoyMemory saveState) gameBoyMemory;;
      store_cartridgeRam (wasmBoyMemory saveState) cartridgeRam;;
      let* date := gets now in
      ret {| wasmBoyMemory := wasmBoyMemory saveState; date := Some date;
             name := name saveState; isAuto := isAuto saveState |}
  end.

(** [x.length] for [x] a typed array or [false]; [i < undefined] is false,
    so a loop bounded by the length of [false] does not run. *)
Definition length_of (x : option (list Z)) : nat := length (default [] x).

(** [x[i]] for [x] a typed array or [false]. *)
Definition index_of (x : option (list Z)) (i : nat) : option Z := x ≫= (.!! i).

(** [loadSaveState]. It only reads its save state, so it is given the
    contents the object has at the call ([snapshot] for an object of the
    program, the stored value for one that comes from the store). The
    result is the [true] it returns, with the memory it leaves. Without a
    memory or without a save state the first statement is a [TypeError]. *)
Definition loadSaveState (wasmByteMemory : option (list Z)) (saveState : option SaveStateData)
    : completion (bool * list Z) :=
  match wasmByteMemory, saveState with
  | Some mem, Some saveState =>
      let mem :=
        for_loop 0 WASMBOY_INTERNAL_STATE.SIZE
          (λ i mem,
             typedSet mem (i + WASMBOY_INTERNAL_STATE.LOCATION)
               (wasmBoyInternalState (d_wasmBoyMemory saveState) !! i))
          mem in
      let mem :=
        for_loop 0 GAMEBOY_MEMORY.SIZE
          (λ i mem,
             typedSet mem (i + GAMEBOY_MEMORY.LOCATION)
               (gameBoyMemory (d_wasmBoyMemory saveState) !! i))
          mem in
      let mem :=
        for_loop 0 (length_of (cartridgeRam (d_wasmBoyMemory saveState)))
          (λ i mem,
             typedSet mem (i + CARTRIDGE_RAM)
               (index_of (cartridgeRam (d_wasmBoyMemory saveState)) i))
          mem in
      Normal (true, mem)
  | _, _ => Throw TypeError
  end.

(** ** The memory service *)

(** [loadCartridgeRom]. A byte is stored only when [gameBytes[i]] is truthy.
    Without a memory the first store is a [TypeError]. *)
Definition loadCartridgeRom (gameBytes : list Z) (bootRom : option (list Z)) : M unit :=
  let* memory := gets wasmByteMemory in
  match memory with
  | Some mem =>
      modify (set_wasmByteMemory (Some (
        for_loop 0 (length gameBytes)
          (λ i mem,
             if truthy (gameBytes !! i)
             then typedSet mem (CARTRIDGE_ROM + i) (gameBytes !! i)
             else mem)
          mem)))
  | None =>
      if existsb (λ b, truthy (Some b)) gameBytes then throw TypeError else ret tt
  end;;
  callExport CallInitialize (λ instance, exports_initialize instance 0);;
  modify (set_loadedROM true).

(** [clearMemory]: the loop runs to [length] inclusive; the last store is
    out of range and does nothing. *)
Definition clearMemory : M unit :=
  let* memory := gets wasmByteMemory in
  match memory with
  | Some mem =>
      modify (set_wasmByteMemory (Some (
        for_loop 0 (S (length mem)) (λ i mem, typedSet mem i (Some 0)) mem)))
  | None => throw TypeError
  end;;
  modify (λ w, {| wasmInstance := wasmInstance w; wasmByteMemory := wasmByteMemory w;
                  loadedROM := false; loadedRAM := false; heap := heap w;
                  localStorage := localStorage w; idb := idb w;
                  idbFaults := idbFaults w; now := now w; trace := trace w |}).

(** An executor that throws rejects its promise (unless already settled). *)
Definition executor (body : M (option settled)) : M (option settled) :=
  try_catch body (λ e, ret (Some (Rejected e))).

(** [saveCartridgeRam]. A typed array is an object, hence truthy; a header
    or RAM that is [None] is [false] or [undefined]. After [reject] the
    executor goes on to the store. The message to [console.error] is not
    part of the model. *)
Definition saveCartridgeRam (passedHeader passedCartridgeRam : option (list Z))
    : M (option settled) :=
  executor (
    let* memory := gets wasmByteMemory in
    let '(header, cartridgeRam) :=
      if bool_decide (is_Some passedHeader) && bool_decide (is_Some passedCartridgeRam)
      then (passedHeader, passedCartridgeRam)
      else (getCartridgeHeader memory, getCartridgeRam memory) in
    let promise :=
      if negb (bool_decide (is_Some header)) || negb (bool_decide (is_Some cartridgeRam))
      then settle None (Rejected (Rejection "Error parsing the cartridgeRam or cartridge header"))
      else None in
    let* got := idbKeyval_get header in
    match got with
    | inr cartridgeObject =>
        let cartridgeObject :=
          default {| co_cartridgeRam := None; co_saveStates := None |} cartridgeObject in
        let cartridgeObject :=
          {| co_cartridgeRam := cartridgeRam;
             co_saveStates := co_saveStates cartridgeObject |} in
        let* put := idbKeyval_set header cartridgeObject in
        match put with
        | inr _ => ret (settle promise Fulfilled)
        | inl error => ret (settle promise (Rejected error))
        end
    | inl error => ret (settle promise (Rejected error))
    end).

(** [saveState]. The save state pushed on [saveStates] goes to the store by
    structured clone: the store receives [snapshot] of it. *)
Definition saveState (passedHeader : option (list Z)) (passedSaveState : option SaveState)
    : M (option settled) :=
  executor (
    callExport CallSaveState exports_saveState;;
    let* memory := gets wasmByteMemory in
    let* chosen :=
      match passedHeader, passedSaveState with
      | Some _, Some saveState => ret (saveState, passedHeader)
      | _, _ =>
          let* saveState := getSaveState memory in
          ret (saveState, getCartridgeHeader memory)
      end in
    let saveState := chosen.1 in
    let header := chosen.2 in
    let promise :=
      if negb (bool_decide (is_Some header))
      then settle None (Rejected (Rejection "Error parsing the cartridge header"))
      else None in
    let* got := idbKeyval_get header in
    match got with
    | inr cartridgeObject =>
        let cartridgeObject :=
          default {| co_cartridgeRam := None; co_saveStates := None |} cartridgeObject in
        let saveStates := default [] (co_saveStates cartridgeObject) in
        let* h := gets heap in
        let cartridgeObject :=
          {| co_cartridgeRam := co_cartridgeRam cartridgeObject;
             co_saveStates := Some (saveStates ++ [snapshot h saveState]) |} in
        let* put := idbKeyval_set header cartridgeObject in
        match put with
        | inr _ => ret (settle promise Fulfilled)
        | inl error => ret (settle promise (Rejected error))
        end
    | inl error => ret (settle promise (Rejected error))
    end).

(** Truthiness of a boolean property that may be [undefined]. *)
Definition truthy_flag (v : option bool) : bool := default false v.

(** [array[i]] for a number [i]: [undefined] outside the array. *)
Definition lookupZ {A} (l : list A) (i : Z) : option A :=
  if i <? 0 then None else l !! Z.to_nat i.

(** The loop of [loadState] that looks for a default index,
    [for (let i = length - 1; i >= 0; i--)], one test of the condition per
    unit of fuel; [None] when the fuel runs out. Finding a state that is
    not automatic sets [i = -1], which the [i--] that follows makes [-2]. *)
Fixpoint defaultIndexLoop (fuel : nat) (saveStates : list SaveStateData)
    (i saveStateIndex : Z) : option (completion Z) :=
  match fuel with
  | O => None
  | S fuel =>
      if negb (0 <=? i) then Some (Normal saveStateIndex)
      else
        match lookupZ saveStates i with
        | None => Some (Throw TypeError)
        | Some s =>
            if negb (truthy_flag (d_isAuto s))
            then
              let saveStateIndex := i in
              let i := -1 in
              defaultIndexLoop fuel saveStates (i - 1) saveStateIndex
            else defaultIndexLoop fuel saveStates (i - 1) saveStateIndex
        end
  end.

(** The block under [if (!saveStateIndex)]. *)
Definition defaultSaveStateIndex (saveStates : list SaveStateData) : option (completion Z) :=
  let saveStateIndex := Z.of_nat (length saveStates) - 1 in
  defaultIndexLoop (S (length saveStates)) saveStates
    (Z.of_nat (length saveStates) - 1) saveStateIndex.

(** What the [then] callback of [loadState] does once the store answered
    with a record that has [saveStates]. An exception here reaches the
    [catch] of the chain, which rejects. *)
Definition loadState_callback (saveStateIndex : option Z) (saveStates : list SaveStateData)
    (promise : option settled) : M (option settled) :=
  try_catch (
    let* chosen :=
      if negb (truthy saveStateIndex)
      then
        match defaultSaveStateIndex saveStates with
        | Some (Normal i) => ret (Some (Some i))
        | Some (Throw e) => throw e
        | None => ret None
        end
      else ret (Some saveStateIndex) in
    match chosen with
    | None => ret promise (* the loop did not end: nothing settles the promise *)
    | Some saveStateIndex =>
        let* memory := gets wasmByteMemory in
        match loadSaveState memory (saveStateIndex ≫= lookupZ saveStates) with
        | Throw e => throw e
        | Normal (_, mem) =>
            modify (set_wasmByteMemory (Some mem));;
            callExport CallLoadState exports_loadState;;
            ret (settle promise Fulfilled)
        end
    end)
    (λ e, ret (settle promise (Rejected e))).

(** [loadState]; [saveStateIndex] is [None] when the argument is omitted. *)
Definition loadState (saveStateIndex : option Z) : M (option settled) :=
  executor (
    let* memory := gets wasmByteMemory in
    let header := getCartridgeHeader memory in
    let promise :=
      if negb (bool_decide (is_Some header))
      then settle None (Rejected (Rejection "Error parsing the cartridge header"))
      else None in
    let* got := idbKeyval_get header in
    match got with
    | inr cartridgeObject =>
        match cartridgeObject ≫= co_saveStates with
        | None =>
            ret (settle promise
                   (Rejected (Rejection "No Cartridge Object or saveStates array found")))
        | Some saveStates => loadState_callback saveStateIndex saveStates promise
        end
    | inl error => ret (settle promise (Rejected error))
    end).

(** An object of save-state arrays once each property went through
    [Array.prototype.slice.call]: plain arrays with the same numbers, the
    empty array for a [false]. *)
Definition untype (o : WasmBoyMemoryObj) : WasmBoyMemoryObj :=
  {| wasmBoyInternalState := Array_slice (Some (wasmBoyInternalState o));
     gameBoyMemory := Array_slice (Some (gameBoyMemory o));
     cartridgeRam := Some (Array_slice (cartridgeRam o)) |}.

(** The loop of the listener over [Object.keys(saveState.wasmBoyMemory)]:
    each property of the object at [l] is replaced by
    [Array.prototype.slice.call] of it. *)
Definition untype_properties (l : loc) : M unit :=
  let* h := gets heap in
  store_wasmBoyInternalState l (Array_slice (Some (wasmBoyInternalState (h !!! l))));;
  let* h := gets heap in
  store_gameBoyMemory l (Array_slice (Some (gameBoyMemory (h !!! l))));;
  let* h := gets heap in
  store_cartridgeRam l (Some (Array_slice (cartridgeRam (h !!! l)))).

(** The [beforeunload] listener that [initialize] installs. The arrays of
    the save state are replaced by plain arrays in the object they live in;
    the document written is the snapshot of the moment. *)
Definition beforeunload : M unit :=
  let* memory := gets wasmByteMemory in
  let header := getCartridgeHeader memory in
  let cartridgeRam := getCartridgeRam memory in
  let* saveState := getSaveState memory in
  untype_properties (wasmBoyMemory saveState);;
  let saveState :=
    {| wasmBoyMemory := wasmBoyMemory saveState; date := date saveState;
       name := name saveState; isAuto := Some true |} in
  let* h := gets heap in
  modify (λ w, log (SetItem WASMBOY_UNLOAD_STORAGE)
                 (set_localStorage
                    (<[WASMBOY_UNLOAD_STORAGE :=
                         {| us_header := Array_slice header;
                            us_cartridgeRam := Array_slice cartridgeRam;
                            us_saveState := Some (snapshot h saveState) |}]>
                       (localStorage w)) w)).

(** What [initialize] leaves behind: either the promise it returns when
    nothing is pending, or (it then returns [undefined]) the outcome of the
    two promises of the replay, the second absent when [saveState] was not
    called. *)
Inductive initOutcome :=
  | NothingPending (returned : settled)
  | Replayed (ram : option settled) (state : option (option settled)).

(** [new Uint8Array(x)] for each property of the parsed
    [saveState.wasmBoyMemory]; a [false] gives the empty typed array. *)
Definition retype (o : WasmBoyMemoryObj) : WasmBoyMemoryObj :=
  {| wasmBoyInternalState := Uint8Array_from (wasmBoyInternalState o);
     gameBoyMemory := Uint8Array_from (gameBoyMemory o);
     cartridgeRam := Some (Uint8Array_from (default [] (cartridgeRam o))) |}.

(** [initialize]. The callbacks of the promise chain are run to their end
    in program order; no other task comes in between. *)
Definition initialize (instance : option WasmInstance) (memory : option (list Z))
    (includeBootRom : bool) : M initOutcome :=
  modify (set_wasmInstance instance);;
  modify (set_wasmByteMemory memory);;
  modify (log (AddEventListener "beforeunload"));;
  modify (log (GetItem WASMBOY_UNLOAD_STORAGE));;
  let* unloadStorage := gets (λ w, localStorage w !! WASMBOY_UNLOAD_STORAGE) in
  match unloadStorage with
  | Some unloadStorageObject =>
      modify (λ w, log (RemoveItem WASMBOY_UNLOAD_STORAGE)
                     (set_localStorage (delete WASMBOY_UNLOAD_STORAGE (localStorage w)) w));;
      let header := Uint8Array_from (us_header unloadStorageObject) in
      let cartridgeRam := Uint8Array_from (us_cartridgeRam unloadStorageObject) in
      let* saveState' :=
        match us_saveState unloadStorageObject with
        | Some d =>
            let* l := alloc (retype (d_wasmBoyMemory d)) in
            ret (Some {| wasmBoyMemory := l; date := d_date d;
                         name := d_name d; isAuto := d_isAuto d |})
        | None => ret None
        end in
      let* ram := saveCartridgeRam (Some header) (Some cartridgeRam) in
      match ram with
      | Some Fulfilled =>
          let* state := saveState (Some header) saveState' in
          ret (Replayed ram (Some state))
      | _ => ret (Replayed ram None)
      end
  | None => ret (NothingPending Fulfilled)
  end.

(** ** The rest of the service *)

Definition set_loadedRAM (x : bool) (w : World) : World :=
  {| wasmInstance := wasmInstance w; wasmByteMemory := wasmByteMemory w;
     loadedROM := loadedROM w; loadedRAM := x; heap := heap w;
     localStorage := localStorage w; idb := idb w; idbFaults := idbFaults w;
     now := now w; trace := trace w |}.

(** [initializeHeadless]: binds the instance and the memory, nothing else. *)
Definition initializeHeadless (instance : option WasmInstance) (memory : option (list Z))
    : M unit :=
  modify (set_wasmInstance instance);;
  modify (set_wasmByteMemory memory).

(** [getLoadedCartridgeMemoryState]: the pair of flags [ROM], [RAM]. *)
Definition getLoadedCartridgeMemoryState : M (bool * bool) :=
  gets (λ w, (loadedROM w, loadedRAM w)).

(** [loadCartridgeRam]. A record without [cartridgeRam] (or with [false]
    there) resolves at once. The stores of the loop need a memory: without
    one the first of them is a [TypeError], which the [catch] of the chain
    turns into a rejection. *)
Definition loadCartridgeRam : M (option settled) :=
  executor (
    let* memory := gets wasmByteMemory in
    let header := getCartridgeHeader memory in
    let promise :=
      if negb (bool_decide (is_Some header))
      then settle None (Rejected (Rejection "Error parsing the cartridge header"))
      else None in
    let* got := idbKeyval_get header in
    match got with
    | inr cartridgeObject =>
        match cartridgeObject ≫= co_cartridgeRam with
        | None => ret (settle promise Fulfilled)
        | Some cartridgeRam =>
            try_catch (
              let* memory := gets wasmByteMemory in
              match memory with
              | Some mem =>
                  modify (set_wasmByteMemory (Some (
                    for_loop 0 (length cartridgeRam)
                      (λ i mem, typedSet mem (CARTRIDGE_RAM + i) (cartridgeRam !! i))
                      mem)))
              | None =>
                  if bool_decide (length cartridgeRam = 0%nat) then ret tt
                  else throw TypeError
              end;;
              modify (set_loadedRAM true);;
              ret (settle promise Fulfilled))
              (λ e, ret (settle promise (Rejected e)))
        end
    | inl error => ret (settle promise (Rejected error))
    end).

(** [getCartridgeObject]: the promise of the store for the header of the
    memory. *)
Definition getCartridgeObject : M (error + option CartridgeObject) :=
  let* memory := gets wasmByteMemory in
  let header := getCartridgeHeader memory in
  idbKeyval_get header.

(** ** The tile data view of the debugger *)

(** [debugger/wasmboyTileData.js]: the size of the canvas. *)
Definition tileDataXPixels : nat := Z.to_nat (0x1F * 8).
Definition tileDataYPixels : nat := Z.to_nat (0x17 * 8).

(** The conversion of a store into a [Uint8ClampedArray]: the number is
    clamped to [0, 255]; [undefined] gives 0. *)
Definition ToUint8Clamp (v : option Z) : Z :=
  match v with
  | Some z => Z.max 0 (Z.min 255 z)
  | None => 0
  end.

(** [clampedArray[i] = v] *)
Definition clampedSet (a : list Z) (i : nat) (v : option Z) : list Z :=
  <[i := ToUint8Clamp v]> a.

(** What the view uses of the core: the export that draws the tile data
    into the linear memory, and the offset it draws at. *)
Record TileDataInstance := {
  exports_drawTileDataToWasmMemory : list Z → list Z;
  exports_tileDataMap : nat;
}.

(** [this.props]: the [wasmboy] object and [shouldUpdate]. *)
Record TileDataProps := {
  props_wasmByteMemory : option (list Z);
  props_wasmInstance : option TileDataInstance;
  props_ready : bool;
  props_paused : bool;
  props_shouldUpdate : bool;
}.

(** The two nested loops of [updateCanvas] that fill [imageDataArray] from
    the memory, three bytes per pixel in, four bytes per pixel out. The
    buffer [rgbColor] is carried from one pixel to the next. *)
Definition tileDataImage (wasmByteMemory : list Z) (tileDataMap : nat) : list Z :=
  let imageDataArray := replicate (tileDataYPixels * tileDataXPixels * 4)%nat 0 in
  let rgbColor := replicate 3 0 in
  (for_loop 0 tileDataYPixels
     (λ y (state : list Z * list Z),
        for_loop 0 tileDataXPixels
          (λ x (state : list Z * list Z),
             let imageDataArray := state.1 in
             let rgbColor := state.2 in
             let pixelStart := (((y * tileDataXPixels) + x) * 3)%nat in
             let rgbColor :=
               for_loop 0 3
                 (λ color rgbColor,
                    clampedSet rgbColor color
                      (wasmByteMemory !! (tileDataMap + pixelStart + color)%nat))
                 rgbColor in
             let imageDataIndex := ((x + (y * tileDataXPixels)) * 4)%nat in
             let imageDataArray := clampedSet imageDataArray imageDataIndex (rgbColor !! 0%nat) in
             let imageDataArray :=
               clampedSet imageDataArray (imageDataIndex + 1)%nat (rgbColor !! 1%nat) in
             let imageDataArray :=
               clampedSet imageDataArray (imageDataIndex + 2)%nat (rgbColor !! 2%nat) in
             let imageDataArray :=
               clampedSet imageDataArray (imageDataIndex + 3)%nat (Some 255) in
             (imageDataArray, rgbColor))
          state)
     (imageDataArray, rgbColor)).1.

(** What [updateCanvas] leaves: the linear memory, the data of
    [canvasImageData], and what [putImageData] drew on the canvas, if it was
    called. *)
Record TileDataView := {
  view_memory : option (list Z);
  view_imageData : list Z;
  view_canvas : option (list Z);
}.

(** [updateCanvas]: the promise it returns and the view it leaves.
    [canvasImageData] is the data of the image made by [createImageData]. *)
Definition updateCanvas (props : TileDataProps) (canvasImageData : list Z)
    : settled * TileDataView :=
  match props_wasmByteMemory props, props_wasmInstance props with
  | Some mem, Some instance =>
      if negb (props_ready props) || props_paused props || negb (props_shouldUpdate props)
      then (Fulfilled, {| view_memory := Some mem; view_imageData := canvasImageData;
                          view_canvas := None |})
      else
        let mem := exports_drawTileDataToWasmMemory instance mem in
        let imageDataArray := tileDataImage mem (exports_tileDataMap instance) in
        let canvasImageData :=
          for_loop 0 (length imageDataArray)
            (λ i data, clampedSet data i (imageDataArray !! i))
            canvasImageData in
        (Fulfilled, {| view_memory := Some mem; view_imageData := canvasImageData;
                       view_canvas := Some canvasImageData |})
  | memory, _ =>
      (Fulfilled, {| view_memory := memory; view_imageData := canvasImageData;
                     view_canvas := None |})
  end.

(** ** Notions used to state the properties *)

(** One pixel of the tile data: the body of the inner loop, by the number
    of the pixel. *)
Definition tileDataPixel (wasmByteMemory : list Z) (tileDataMap p : nat)
    (state : list Z * list Z) : list Z * list Z :=
  let rgbColor :=
    for_loop 0 3
      (λ color rgbColor,
         clampedSet rgbColor color (wasmByteMemory !! (tileDataMap + p * 3 + color)%nat))
      state.2 in
  let imageDataArray := clampedSet state.1 (p * 4) (rgbColor !! 0%nat) in
  let imageDataArray := clampedSet imageDataArray (p * 4 + 1) (rgbColor !! 1%nat) in
  let imageDataArray := clampedSet imageDataArray (p * 4 + 2) (rgbColor !! 2%nat) in
  let imageDataArray := clampedSet imageDataArray (p * 4 + 3) (Some 255) in
  (imageDataArray, rgbColor).

(** The value of channel [c] of the pixel [p]: a colour of the memory for
    the first three, 255 for the fourth. *)
Definition tileDataChannel (mem : list Z) (map p c : nat) : Z :=
  if decide (c < 3)%nat then ToUint8Clamp (mem !! (map + p * 3 + c)%nat) else 255.

(** The three regions of a memory as [getSaveState] reads them. *)
Definition regions (mem : list Z) : WasmBoyMemoryObj :=
  {| wasmBoyInternalState :=
       (λ i, ToUint8 (mem !! (i + WASMBOY_INTERNAL_STATE.LOCATION)%nat))
         <$> seq 0 WASMBOY_INTERNAL_STATE.SIZE;
     gameBoyMemory :=
       (λ i, ToUint8 (mem !! (i + GAMEBOY_MEMORY.LOCATION)%nat))
         <$> seq 0 GAMEBOY_MEMORY.SIZE;
     cartridgeRam := getCartridgeRam (Some mem) |}.

(** The byte that [loadSaveState] leaves at offset [k] of a memory [mem]:
    the last of the three loops that stores there decides. *)
Definition loaded_byte (mem : list Z) (o : WasmBoyMemoryObj) (k : nat) : option Z :=
  if decide (k < length mem)%nat then
    if decide (CARTRIDGE_RAM ≤ k < CARTRIDGE_RAM + length_of (cartridgeRam o))%nat
    then Some (ToUint8 (index_of (cartridgeRam o) (k - CARTRIDGE_RAM)))
    else if decide (GAMEBOY_MEMORY.LOCATION ≤ k
                    < GAMEBOY_MEMORY.LOCATION + GAMEBOY_MEMORY.SIZE)%nat
    then Some (ToUint8 (gameBoyMemory o !! (k - GAMEBOY_MEMORY.LOCATION)%nat))
    else if decide (WASMBOY_INTERNAL_STATE.LOCATION ≤ k
                    < WASMBOY_INTERNAL_STATE.LOCATION + WASMBOY_INTERNAL_STATE.SIZE)%nat
    then Some (ToUint8 (wasmBoyInternalState o !! (k - WASMBOY_INTERNAL_STATE.LOCATION)%nat))
    else mem !! k
  else None.

(** The memory that the loop of [loadCartridgeRam] leaves. *)
Definition ram_loaded (cartridgeRam mem : list Z) : list Z :=
  for_loop 0 (length cartridgeRam)
    (λ i mem, typedSet mem (CARTRIDGE_RAM + i) (cartridgeRam !! i))
    mem.

(** ** Sample inputs *)

(** A core whose exports leave the linear memory as it is. *)
Definition idle_core : WasmInstance :=
  {| exports_initialize := λ _ mem, mem;
     exports_saveState := λ mem, mem;
     exports_loadState := λ mem, mem |}.

(** A linear memory of 0x80000 bytes: an MBC1 cartridge with RAM and battery
    (type byte 0x03), one byte set in each of the three saved regions. *)
Definition sample_memory : list Z :=
  <[(CARTRIDGE_ROM + Z.to_nat 0x0147)%nat := 0x03]>
    (<[CARTRIDGE_RAM := 0x11]>
       (<[GAMEBOY_MEMORY.LOCATION := 0x22]>
          (<[WASMBOY_INTERNAL_STATE.LOCATION := 0x33]>
             (replicate (Z.to_nat 0x80000) 0)))).

(** The world right after the module is loaded: the schema object holds
    three empty arrays, nothing is stored anywhere, no call to the store
    fails. *)
Definition fresh_world (instance : option WasmInstance) (memory : option (list Z)) : World :=
  {| wasmInstance := instance; wasmByteMemory := memory;
     loadedROM := false; loadedRAM := false;
     heap := {[SCHEMA_MEMORY := {| wasmBoyInternalState := []; gameBoyMemory := [];
                                   cartridgeRam := Some [] |}]};
     localStorage := ∅; idb := ∅; idbFaults := []; now := 1000; trace := [] |}.

(** A stored save state whose InternalState has one byte and whose
    EmulatedMemory has none. *)
Definition short_state : SaveStateData :=
  {| d_wasmBoyMemory := {| wasmBoyInternalState := [7]; gameBoyMemory := [];
                           cartridgeRam := None |};
     d_date := Some 1000; d_name := None; d_isAuto := None |}.



(** The memory that the loop of [loadCartridgeRom] leaves. *)
Definition rom_loaded (gameBytes mem : list Z) : list Z :=
  for_loop 0 (length gameBytes)
    (λ i mem,
       if truthy (gameBytes !! i)
       then typedSet mem (CARTRIDGE_ROM + i) (gameBytes !! i)
       else mem)
    mem.

(** A ROM image of 0x148 bytes, all of them 0. *)
Definition zero_rom : list Z := replicate (Z.to_nat 0x148) 0.

(** The entry that the default policy of the specification selects in a
    list of save states, oldest first: the most recent one that is not
    automatic, or the most recent one when all are automatic. *)
Definition selected (saveStates : list SaveStateData) (k : nat) : Prop :=
  (k < length saveStates)%nat
  ∧ ((∃ s, saveStates !! k = Some s ∧ truthy_flag (d_isAuto s) = false
           ∧ ∀ j s', (k < j)%nat → saveStates !! j = Some s' → truthy_flag (d_isAuto s') = true)
     ∨ (S k = length saveStates
        ∧ ∀ j s', saveStates !! j = Some s' → truthy_flag (d_isAuto s') = true)).

(** Stored save states told apart by the first byte of InternalState. *)
Definition stored_state (byte0 : Z) (date : Z) (isAuto : option bool) : SaveStateData :=
  {| d_wasmBoyMemory := {| wasmBoyInternalState := [byte0]; gameBoyMemory := [];
                           cartridgeRam := None |};
     d_date := Some date; d_name := None; d_isAuto := isAuto |}.

(** A world whose store holds [saveStates] under the header of the sample
    memory. *)
Definition world_with_states (saveStates : list SaveStateData) : World :=
  set_idb {[getCartridgeHeader (Some sample_memory) :=
              {| co_cartridgeRam := None; co_saveStates := Some saveStates |}]}
    (fresh_world (Some idle_core) (Some sample_memory)).

Arguments world_with_states : simpl never.

(** A world whose store holds [record] under the header of the sample
    memory. *)
Definition world_with_record (record : CartridgeObject) : World :=
  set_idb {[getCartridgeHeader (Some sample_memory) := record]}
    (fresh_world (Some idle_core) (Some sample_memory)).

Arguments world_with_record : simpl never.

(** The sample memory after the game changed the first byte of its
    cartridge RAM. *)
Definition played_memory : list Z := <[CARTRIDGE_RAM := 0x99]> sample_memory.

Arguments played_memory : simpl never.

(** A memory of 0x80000 zeros: its cartridge type byte is 0x00, a cartridge
    without RAM. *)
Definition blank_memory : list Z := replicate (Z.to_nat 0x80000) 0.

Arguments blank_memory : simpl never.

(** The document that the [beforeunload] listener writes for a memory, at
    time [date]: header, cartridge RAM and an automatic save state, all as
    plain arrays. *)
Definition unload_document (mem : list Z) (date : Z) : UnloadStorageObject :=
  {| us_header := Array_slice (getCartridgeHeader (Some mem));
     us_cartridgeRam := Array_slice (getCartridgeRam (Some mem));
     us_saveState :=
       Some {| d_wasmBoyMemory := untype (regions mem); d_date := Some date;
               d_name := None; d_isAuto := Some true |} |}.

(** A session about to start after the listener ran over the sample memory:
    the snapshot is pending, the service is not bound yet, and the calls to
    the store fail as [faults] tells. *)
Definition pending_world (faults : list bool) : World :=
  set_idbFaults faults
    (set_localStorage {[WASMBOY_UNLOAD_STORAGE := unload_document sample_memory 1000]}
       (fresh_world None None)).

Arguments pending_world : simpl never.

(** The save states of the example of the specification: an automatic, a
    manual and an automatic one, oldest first. *)
Definition auto_manual_auto : list SaveStateData :=
  [stored_state 1 1 (Some true); stored_state 2 2 None; stored_state 3 3 (Some true)].

Arguments for_loop : simpl never.
Arguments CARTRIDGE_RAM : simpl never.
Arguments CARTRIDGE_ROM : simpl never.
Arguments WASMBOY_INTERNAL_STATE.LOCATION : simpl never.
Arguments WASMBOY_INTERNAL_STATE.SIZE : simpl never.
Arguments GAMEBOY_MEMORY.LOCATION : simpl never.
Arguments GAMEBOY_MEMORY.SIZE : simpl never.
Arguments sample_memory : simpl never.
Arguments tileDataXPixels : simpl never.
Arguments tileDataYPixels : simpl never.

(** * Properties *)

Ltac world_simpl :=
  cbn [fst snd wasmInstance wasmByteMemory loadedROM loadedRAM heap localStorage idb
       idbFaults now trace set_wasmInstance set_wasmByteMemory set_loadedROM set_heap
       set_localStorage set_idb set_idbFaults log].

Ltac frame_done :=
  eexists _, _; split; [reflexivity|]; world_simpl;
  split; [reflexivity|]; eexists; rewrite <- ?app_assoc; reflexivity.

Ltac service_simpl :=
  cbn [fst snd wasmInstance wasmByteMemory loadedROM loadedRAM heap localStorage idb
       idbFaults now trace set_wasmInstance set_wasmByteMemory set_loadedROM
       set_loadedRAM set_heap set_localStorage set_idb set_idbFaults log].

(** ** Loops that fill an array *)

Lemma for_loop_O {St : Type} (body : nat → St → St) i s :
  for_loop i 0 body s = s.
Proof. reflexivity. Qed.

Lemma for_loop_S {St : Type} (body : nat → St → St) i n s :
  for_loop i (S n) body s = for_loop (S i) n body (body i s).
Proof. reflexivity. Qed.

Lemma for_loop_ext {St : Type} (f g : nat → St → St) i n s :
  (∀ j s', (i ≤ j < i + n)%nat → f j s' = g j s') →
  for_loop i n f s = for_loop i n g s.
Proof.
  revert i s. induction n as [|n IH]; intros i s Hfg; [done|]. rewrite !for_loop_S.
  rewrite Hfg by lia. apply IH. intros j s' Hj. apply Hfg. lia.
Qed.

Section fill_loops.
Context (dst : nat → nat) (val : nat → Z).
Hypothesis dst_inj : ∀ i j, dst i = dst j → i = j.

Lemma for_loop_fill_length i n (a : list Z) :
  length (for_loop i n (λ j a, <[dst j := val j]> a) a) = length a.
Proof.
  revert i a. induction n as [|n IH]; intros i a; [done|]. rewrite for_loop_S.
  rewrite IH. by rewrite length_insert.
Qed.

Lemma for_loop_fill_other i n (a : list Z) k :
  (∀ j, (i ≤ j < i + n)%nat → dst j ≠ k) →
  for_loop i n (λ j a, <[dst j := val j]> a) a !! k = a !! k.
Proof.
  revert i a. induction n as [|n IH]; intros i a Hk; [done|]. rewrite for_loop_S.
  rewrite IH by (intros j Hj; apply Hk; lia).
  apply list_lookup_insert_ne. apply Hk. lia.
Qed.

Lemma for_loop_fill_hit i n (a : list Z) j :
  (i ≤ j < i + n)%nat → (dst j < length a)%nat →
  for_loop i n (λ j a, <[dst j := val j]> a) a !! dst j = Some (val j).
Proof using dst_inj.
  revert i a. induction n as [|n IH]; intros i a Hj Hlen; [lia|]. rewrite for_loop_S.
  destruct (decide (j = i)) as [->|Hne].
  - rewrite for_loop_fill_other.
    + by apply list_lookup_insert_eq.
    + intros j' Hj' Heq. apply dst_inj in Heq. lia.
  - apply IH; [lia|]. by rewrite length_insert.
Qed.
End fill_loops.

(** Reading [n] bytes at [f 0], [f 1], ... into a new typed array of [len]
    zeros: the first [min n len] elements are the bytes read. *)
Lemma read_loop_length (mem : list Z) (f : nat → nat) n len :
  length (for_loop 0 n (λ i a, typedSet a i (mem !! f i)) (newUint8Array len)) = len.
Proof.
  unfold typedSet.
  rewrite (for_loop_fill_length (λ i, i) (λ i, ToUint8 (mem !! f i))).
  apply length_replicate.
Qed.

Lemma read_loop_lookup (mem : list Z) (f : nat → nat) n len j :
  (j < len)%nat →
  for_loop 0 n (λ i a, typedSet a i (mem !! f i)) (newUint8Array len) !! j
  = Some (if decide (j < n)%nat then ToUint8 (mem !! f j) else 0).
Proof.
  intros Hj. unfold typedSet. case_decide as Hn.
  - apply (for_loop_fill_hit (λ i, i) (λ i, ToUint8 (mem !! f i))); [done|lia|].
    unfold newUint8Array. by rewrite length_replicate.
  - rewrite (for_loop_fill_other (λ i, i) (λ i, ToUint8 (mem !! f i))) by lia.
    by apply lookup_replicate_2.
Qed.

Lemma read_loop_eq (mem : list Z) (f : nat → nat) n :
  for_loop 0 n (λ i a, typedSet a i (mem !! f i)) (newUint8Array n)
  = (λ i, ToUint8 (mem !! f i)) <$> seq 0 n.
Proof.
  apply list_eq. intros j.
  destruct (decide (j < n)%nat) as [Hj|Hj].
  - rewrite read_loop_lookup by done. rewrite decide_True by done.
    rewrite list_lookup_fmap, lookup_seq_lt by done. done.
  - rewrite !lookup_ge_None_2; [done| |].
    + rewrite length_fmap, length_seq. lia.
    + rewrite read_loop_length. lia.
Qed.

(** ** Cartridge header *)

Lemma getCartridgeHeader_eq (mem : list Z) :
  getCartridgeHeader (Some mem)
  = Some ((λ i, ToUint8 (mem !! (CARTRIDGE_ROM + Z.to_nat 0x0134 + i)%nat)) <$> seq 0 27).
Proof.
  unfold getCartridgeHeader. apply (f_equal Some).
  change (Z.to_nat 0x014F - Z.to_nat 0x0134)%nat with 27%nat.
  apply list_eq. intros j.
  destruct (decide (j < 27)%nat) as [Hj|Hj].
  - rewrite (read_loop_lookup mem (λ i, (CARTRIDGE_ROM + Z.to_nat 0x0134 + i)%nat)) by done.
    rewrite decide_True by lia.
    rewrite list_lookup_fmap, lookup_seq_lt by done. done.
  - rewrite !lookup_ge_None_2; [done| |].
    + rewrite length_fmap, length_seq. lia.
    + rewrite (read_loop_length mem (λ i, (CARTRIDGE_ROM + Z.to_nat 0x0134 + i)%nat)). lia.
Qed.

(** ** RAM sizing *)

Lemma resolveRamSize_table (b : Z) : resolveRamSize (Some b) = ramSizeTable b.
Proof.
  unfold resolveRamSize, ramSizeTable, ramSizeOfType.
  case_bool_decide as H0.
  - injection H0 as ->. done.
  - destruct (b =? 0) eqn:Hb; [apply Z.eqb_eq in Hb; by subst|].
    repeat (destruct (_ && _); [done|]). done.
Qed.

Lemma getCartridgeRam_eq (mem : list Z) :
  getCartridgeRam (Some mem)
  = (λ ramSize, (λ i, ToUint8 (mem !! (CARTRIDGE_RAM + i)%nat)) <$> seq 0 (Z.to_nat ramSize))
      <$> resolveRamSize (mem !! (CARTRIDGE_ROM + Z.to_nat 0x0147)%nat).
Proof.
  unfold getCartridgeRam.
  destruct (resolveRamSize _) as [ramSize|]; [|reflexivity].
  rewrite (read_loop_eq mem (λ i, (CARTRIDGE_RAM + i)%nat)). reflexivity.
Qed.

(** ** The save-state codec *)

(** Storing [n] values at [off], [off + 1], ... of a memory. *)
Lemma write_loop_length (src : nat → option Z) off n (mem : list Z) :
  length (for_loop 0 n (λ i mem, typedSet mem (i + off) (src i)) mem) = length mem.
Proof.
  unfold typedSet.
  apply (for_loop_fill_length (λ i, (i + off)%nat) (λ i, ToUint8 (src i))).
Qed.

Lemma write_loop_lookup (src : nat → option Z) off n (mem : list Z) k :
  for_loop 0 n (λ i mem, typedSet mem (i + off) (src i)) mem !! k
  = if decide (off ≤ k < off + n)%nat
    then (if decide (k < length mem)%nat then Some (ToUint8 (src (k - off)%nat)) else None)
    else mem !! k.
Proof.
  destruct (decide (off ≤ k < off + n)%nat) as [Hin|Hout].
  - destruct (decide (k < length mem)%nat) as [Hlen|Hlen].
    + replace k with ((k - off) + off)%nat at 1 by lia.
      unfold typedSet.
      apply (for_loop_fill_hit (λ i, (i + off)%nat) (λ i, ToUint8 (src i))).
      * intros i j. lia.
      * lia.
      * lia.
    + apply lookup_ge_None_2. rewrite write_loop_length. lia.
  - unfold typedSet.
    apply (for_loop_fill_other (λ i, (i + off)%nat) (λ i, ToUint8 (src i))).
    intros j Hj. lia.
Qed.

Lemma loadSaveState_run (mem : list Z) (s : SaveStateData) :
  ∃ mem', loadSaveState (Some mem) (Some s) = Normal (true, mem')
          ∧ length mem' = length mem
          ∧ ∀ k, mem' !! k = loaded_byte mem (d_wasmBoyMemory s) k.
Proof.
  unfold loadSaveState. eexists. split; [reflexivity|]. split.
  - by rewrite !write_loop_length.
  - intros k. unfold loaded_byte.
    rewrite write_loop_lookup, write_loop_length, write_loop_length.
    destruct (decide (k < length mem)%nat) as [Hlen|Hlen].
    + case_decide; [done|].
      rewrite write_loop_lookup, write_loop_length.
      case_decide; [by rewrite decide_True by done|].
      rewrite write_loop_lookup.
      case_decide; [by rewrite decide_True by done|]. done.
    + case_decide; [done|].
      apply lookup_ge_None_2. rewrite !write_loop_length. lia.
Qed.

Lemma getSaveState_run (mem : list Z) (w : World) :
  getSaveState (Some mem) w
  = (Normal {| wasmBoyMemory := SCHEMA_MEMORY; date := Some (now w);
               name := None; isAuto := None |},
     set_heap (<[SCHEMA_MEMORY := regions mem]> (heap w)) w).
Proof.
  unfold getSaveState, regions. cbv zeta.
  rewrite (read_loop_eq mem (λ i, (i + WASMBOY_INTERNAL_STATE.LOCATION)%nat)).
  rewrite (read_loop_eq mem (λ i, (i + GAMEBOY_MEMORY.LOCATION)%nat)).
  generalize (getCartridgeRam (Some mem)). intros ram.
  generalize ((λ i, ToUint8 (mem !! (i + WASMBOY_INTERNAL_STATE.LOCATION)%nat))
                <$> seq 0 WASMBOY_INTERNAL_STATE.SIZE). intros internal.
  generalize ((λ i, ToUint8 (mem !! (i + GAMEBOY_MEMORY.LOCATION)%nat))
                <$> seq 0 GAMEBOY_MEMORY.SIZE). intros gb.
  unfold bind, store_wasmBoyInternalState, store_gameBoyMemory, store_cartridgeRam,
    modify, gets, ret.
  simpl. f_equal. unfold set_heap. simpl.
  rewrite !lookup_total_insert_eq. simpl.
  rewrite !insert_insert_eq. reflexivity.
Qed.

Lemma ToUint8_byte (b : Z) : 0 ≤ b < 256 → ToUint8 (Some (ToUint8 (Some b))) = b.
Proof. intros Hb. unfold ToUint8. rewrite Z.mod_mod by lia. apply Z.mod_small. lia. Qed.

Lemma length_of_getCartridgeRam (mem : list Z) :
  length_of (getCartridgeRam (Some mem))
  = Z.to_nat (default 0 (resolveRamSize (mem !! (CARTRIDGE_ROM + Z.to_nat 0x0147)%nat))).
Proof.
  rewrite getCartridgeRam_eq. unfold length_of.
  destruct (resolveRamSize _) as [n|]; [|reflexivity].
  change (length ((λ i, ToUint8 (mem !! (CARTRIDGE_RAM + i)%nat)) <$> seq 0 (Z.to_nat n))
          = Z.to_nat n).
  by rewrite length_fmap, length_seq.
Qed.

Lemma index_of_getCartridgeRam (mem : list Z) i :
  (i < length_of (getCartridgeRam (Some mem)))%nat →
  index_of (getCartridgeRam (Some mem)) i = Some (ToUint8 (mem !! (CARTRIDGE_RAM + i)%nat)).
Proof.
  rewrite length_of_getCartridgeRam, getCartridgeRam_eq. unfold index_of.
  destruct (resolveRamSize _) as [n|].
  - change ((i < Z.to_nat n)%nat →
            ((λ i, ToUint8 (mem !! (CARTRIDGE_RAM + i)%nat)) <$> seq 0 (Z.to_nat n)) !! i
            = Some (ToUint8 (mem !! (CARTRIDGE_RAM + i)%nat))).
    intros Hi. rewrite list_lookup_fmap, lookup_seq_lt by done. done.
  - change ((i < 0)%nat → @None Z = Some (ToUint8 (mem !! (CARTRIDGE_RAM + i)%nat))). lia.
Qed.

(** Encoding a memory of bytes and decoding the result stores every byte
    back where it was read. *)
Lemma loaded_byte_regions (mem : list Z) k :
  is_uint8array mem → loaded_byte mem (regions mem) k = mem !! k.
Proof.
  intros Hmem. unfold loaded_byte, regions.
  cbn [wasmBoyInternalState gameBoyMemory cartridgeRam].
  destruct (decide (k < length mem)%nat) as [Hlen|Hlen];
    [|symmetry; apply lookup_ge_None_2; lia].
  destruct (lookup_lt_is_Some_2 mem k Hlen) as [b Hb].
  assert (0 ≤ b < 256) as Hbyte
    by (eapply (Forall_lookup_1 (λ b, 0 ≤ b < 256)); [exact Hmem | exact Hb]).
  rewrite Hb.
  case_decide as Hram.
  { rewrite index_of_getCartridgeRam by lia.
    replace (CARTRIDGE_RAM + (k - CARTRIDGE_RAM))%nat with k by lia.
    rewrite Hb. by rewrite ToUint8_byte. }
  case_decide as Hgb.
  { rewrite list_lookup_fmap, lookup_seq_lt by lia.
    cbn [fmap option_fmap option_map Nat.add].
    replace (k - GAMEBOY_MEMORY.LOCATION + GAMEBOY_MEMORY.LOCATION)%nat with k by lia.
    rewrite Hb. by rewrite ToUint8_byte. }
  case_decide as His; [|done].
  rewrite list_lookup_fmap, lookup_seq_lt by lia.
  cbn [fmap option_fmap option_map Nat.add].
  replace (k - WASMBOY_INTERNAL_STATE.LOCATION + WASMBOY_INTERNAL_STATE.LOCATION)%nat
    with k by lia.
  rewrite Hb. by rewrite ToUint8_byte.
Qed.

Lemma sample_memory_bytes : is_uint8array sample_memory.
Proof.
  unfold sample_memory, is_uint8array.
  repeat (apply Forall_insert; [|lia]).
  apply Forall_replicate. lia.
Qed.

(** C2. Round trip of the codec: for every linear memory (a typed array of
    bytes, whatever its cartridge type byte), [getSaveState] yields a save
    state, and [loadSaveState] of that save state into the same memory
    returns [true] and leaves the memory, hence the InternalState,
    EmulatedMemory and CartridgeRam regions, byte for byte as it was. *)
Theorem getSaveState_loadSaveState_round_trip (mem : list Z) (w : World) :
  is_uint8array mem →
  ∃ saveState w',
    getSaveState (Some mem) w = (Normal saveState, w')
    ∧ loadSaveState (Some mem) (Some (snapshot (heap w') saveState)) = Normal (true, mem).
Proof.
  intros Hmem. eexists _, _. split; [apply getSaveState_run|].
  destruct (loadSaveState_run mem
              (snapshot (heap (set_heap (<[SCHEMA_MEMORY := regions mem]> (heap w)) w))
                 {| wasmBoyMemory := SCHEMA_MEMORY; date := Some (now w);
                    name := None; isAuto := None |}))
    as (mem' & -> & Hlen & Hlookup).
  do 2 f_equal. apply list_eq. intros k. rewrite Hlookup.
  unfold snapshot. cbn [d_wasmBoyMemory wasmBoyMemory heap set_heap].
  rewrite lookup_total_insert_eq. by apply loaded_byte_regions.
Qed.

Lemma getSaveState_loadSaveState_round_trip_witness :
  is_uint8array sample_memory
  ∧ ∃ saveState w',
      getSaveState (Some sample_memory) (fresh_world (Some idle_core) (Some sample_memory))
      = (Normal saveState, w')
      ∧ loadSaveState (Some sample_memory) (Some (snapshot (heap w') saveState))
        = Normal (true, sample_memory).
Proof.
  split; [exact sample_memory_bytes|].
  apply (getSaveState_loadSaveState_round_trip sample_memory
           (fresh_world (Some idle_core) (Some sample_memory))).
  exact sample_memory_bytes.
Defined.

(** ** Claims on the cartridge header and on RAM sizing *)

(** C9. RAM-size resolution is a function of the cartridge type byte that
    agrees with the table of the specification on every number (0x00 none,
    0x01-0x03 32768, 0x05-0x06 2048, 0x0F-0x13 32768, 0x19-0x1E 131072,
    anything else none), and [getCartridgeRam] returns [false] (no error)
    exactly when the size resolved from the byte at CartridgeRom + 0x0147
    is none; otherwise it returns that many bytes read from CartridgeRam. *)
Theorem resolveRamSize_total_table :
  (∀ b : Z, resolveRamSize (Some b) = ramSizeTable b)
  ∧ (∀ mem : list Z,
       getCartridgeRam (Some mem) = None
       ↔ resolveRamSize (mem !! (CARTRIDGE_ROM + Z.to_nat 0x0147)%nat) = None)
  ∧ (∀ mem : list Z,
       length_of (getCartridgeRam (Some mem))
       = Z.to_nat (default 0 (resolveRamSize (mem !! (CARTRIDGE_ROM + Z.to_nat 0x0147)%nat)))).
Proof.
  split; [exact resolveRamSize_table|]. split.
  - intros mem. rewrite getCartridgeRam_eq.
    destruct (resolveRamSize _); split; intros H; (done || discriminate H).
  - exact length_of_getCartridgeRam.
Qed.

(** C3. The header that [getCartridgeHeader] extracts is made of the 27
    bytes at CartridgeRom + 0x0134 through CartridgeRom + 0x014E: the array
    is allocated with [0x014F - 0x0134] elements, so the store of the byte at
    0x014F, which the loop does reach, falls outside it. The header never has
    28 bytes. On the sample below, whose window holds 1, 2, ..., 28, the
    header ends with 27. *)
Theorem getCartridgeHeader_drops_last_byte :
  (∀ mem : list Z,
     getCartridgeHeader (Some mem)
     = Some ((λ i, ToUint8 (mem !! (CARTRIDGE_ROM + Z.to_nat 0x0134 + i)%nat)) <$> seq 0 27))
  ∧ (∀ mem : list Z, length <$> getCartridgeHeader (Some mem) = Some 27%nat)
  ∧ getCartridgeHeader
      (Some (replicate (CARTRIDGE_ROM + Z.to_nat 0x0134) 0
               ++ (Z.of_nat <$> seq 1 28) ++ replicate 1000 0))
    = Some (Z.of_nat <$> seq 1 27).
Proof.
  split; [exact getCartridgeHeader_eq|]. split.
  - intros mem. rewrite getCartridgeHeader_eq.
    cbn [fmap option_fmap option_map]. by rewrite length_fmap, length_seq.
  - vm_compute. reflexivity.
Qed.

(** ** The loop of [loadCartridgeRom] *)

Section conditional_fill.
Context (dst : nat → nat) (val : nat → Z) (cond : nat → bool).
Hypothesis dst_inj : ∀ i j, dst i = dst j → i = j.

Lemma for_loop_cond_length i n (a : list Z) :
  length (for_loop i n (λ j a, if cond j then <[dst j := val j]> a else a) a) = length a.
Proof.
  revert i a. induction n as [|n IH]; intros i a; [done|]. rewrite for_loop_S.
  rewrite IH. destruct (cond i); [by rewrite length_insert|done].
Qed.

Lemma for_loop_cond_other i n (a : list Z) k :
  (∀ j, (i ≤ j < i + n)%nat → cond j = true → dst j ≠ k) →
  for_loop i n (λ j a, if cond j then <[dst j := val j]> a else a) a !! k = a !! k.
Proof.
  revert i a. induction n as [|n IH]; intros i a Hk; [done|]. rewrite for_loop_S.
  rewrite IH by (intros j Hj; apply Hk; lia).
  destruct (cond i) eqn:Hc; [|done].
  apply list_lookup_insert_ne. apply Hk; [lia|done].
Qed.

Lemma for_loop_cond_hit i n (a : list Z) j :
  (i ≤ j < i + n)%nat → (dst j < length a)%nat → cond j = true →
  for_loop i n (λ j a, if cond j then <[dst j := val j]> a else a) a !! dst j
  = Some (val j).
Proof using dst_inj.
  revert i a. induction n as [|n IH]; intros i a Hj Hlen Hc; [lia|]. rewrite for_loop_S.
  destruct (decide (j = i)) as [->|Hne].
  - rewrite for_loop_cond_other.
    + rewrite Hc. by apply list_lookup_insert_eq.
    + intros j' Hj' _ Heq. apply dst_inj in Heq. lia.
  - apply IH; [lia| |done]. destruct (cond i); [by rewrite length_insert|done].
Qed.
End conditional_fill.

Lemma rom_loaded_length (gameBytes mem : list Z) :
  length (rom_loaded gameBytes mem) = length mem.
Proof.
  unfold rom_loaded, typedSet.
  apply (for_loop_cond_length (λ i, (CARTRIDGE_ROM + i)%nat)
           (λ i, ToUint8 (gameBytes !! i)) (λ i, truthy (gameBytes !! i))).
Qed.

(** A byte of the image that is not 0 is stored. *)
Lemma rom_loaded_stored (gameBytes mem : list Z) i b :
  gameBytes !! i = Some b → b ≠ 0 → (CARTRIDGE_ROM + i < length mem)%nat →
  rom_loaded gameBytes mem !! (CARTRIDGE_ROM + i)%nat = Some (ToUint8 (Some b)).
Proof.
  intros Hb Hnz Hlen. unfold rom_loaded, typedSet.
  rewrite (for_loop_cond_hit (λ i, (CARTRIDGE_ROM + i)%nat)
             (λ i, ToUint8 (gameBytes !! i)) (λ i, truthy (gameBytes !! i))).
  - by rewrite Hb.
  - intros j j'. lia.
  - apply lookup_lt_Some in Hb. lia.
  - done.
  - rewrite Hb. unfold truthy. by apply negb_true_iff, Z.eqb_neq.
Qed.

(** A byte of the image that is 0 is skipped: the memory keeps its byte. *)
Lemma rom_loaded_skipped (gameBytes mem : list Z) i :
  gameBytes !! i = Some 0 →
  rom_loaded gameBytes mem !! (CARTRIDGE_ROM + i)%nat = mem !! (CARTRIDGE_ROM + i)%nat.
Proof.
  intros Hb. unfold rom_loaded, typedSet.
  apply (for_loop_cond_other (λ i, (CARTRIDGE_ROM + i)%nat)
           (λ i, ToUint8 (gameBytes !! i)) (λ i, truthy (gameBytes !! i))).
  intros j Hj Hc Heq. assert (j = i) as -> by lia.
  rewrite Hb in Hc. discriminate Hc.
Qed.

Lemma loadCartridgeRom_run (gameBytes mem : list Z) bootRom instance (w : World) :
  wasmByteMemory w = Some mem → wasmInstance w = Some instance →
  loadCartridgeRom gameBytes bootRom w
  = (Normal tt,
     set_loadedROM true
       (log CallInitialize
          (set_wasmByteMemory (Some (exports_initialize instance 0 (rom_loaded gameBytes mem)))
             (set_wasmByteMemory (Some (rom_loaded gameBytes mem)) w)))).
Proof.
  intros Hmem Hinst.
  unfold loadCartridgeRom, bind, gets, modify, callExport. rewrite Hmem.
  cbn [wasmInstance set_wasmByteMemory wasmByteMemory]. rewrite Hinst. reflexivity.
Qed.

(** ** Claims on decoding *)

(** The address map: InternalState, EmulatedMemory and CartridgeRam follow
    one another from offset 0. *)
Lemma address_map :
  WASMBOY_INTERNAL_STATE.LOCATION = 0%nat
  ∧ WASMBOY_INTERNAL_STATE.SIZE = 1024%nat
  ∧ GAMEBOY_MEMORY.LOCATION = 1024%nat
  ∧ (GAMEBOY_MEMORY.LOCATION + GAMEBOY_MEMORY.SIZE = CARTRIDGE_RAM)%nat
  ∧ (CARTRIDGE_RAM < CARTRIDGE_ROM)%nat.
Proof.
  unfold WASMBOY_INTERNAL_STATE.LOCATION, WASMBOY_INTERNAL_STATE.SIZE,
    GAMEBOY_MEMORY.LOCATION, GAMEBOY_MEMORY.SIZE, CARTRIDGE_RAM, CARTRIDGE_ROM.
  lia.
Qed.

Lemma loaded_byte_internal (mem : list Z) o k :
  (k < length mem)%nat → (k < WASMBOY_INTERNAL_STATE.SIZE)%nat →
  loaded_byte mem o k = Some (ToUint8 (wasmBoyInternalState o !! k)).
Proof.
  intros Hlen Hk. destruct address_map as (H0 & H1 & H2 & H3 & H4).
  unfold loaded_byte. rewrite decide_True by done.
  rewrite decide_False by lia. rewrite decide_False by lia.
  rewrite decide_True by lia. rewrite H0. by rewrite Nat.sub_0_r.
Qed.

Lemma loaded_byte_gameboy (mem : list Z) o k :
  (k < length mem)%nat →
  (GAMEBOY_MEMORY.LOCATION ≤ k < GAMEBOY_MEMORY.LOCATION + GAMEBOY_MEMORY.SIZE)%nat →
  loaded_byte mem o k = Some (ToUint8 (gameBoyMemory o !! (k - GAMEBOY_MEMORY.LOCATION)%nat)).
Proof.
  intros Hlen Hk. destruct address_map as (H0 & H1 & H2 & H3 & H4).
  unfold loaded_byte. rewrite decide_True by done.
  rewrite decide_False by lia. by rewrite decide_True by lia.
Qed.

Lemma loaded_byte_ram (mem : list Z) o k :
  (k < length mem)%nat →
  (CARTRIDGE_RAM ≤ k < CARTRIDGE_RAM + length_of (cartridgeRam o))%nat →
  loaded_byte mem o k = Some (ToUint8 (index_of (cartridgeRam o) (k - CARTRIDGE_RAM))).
Proof.
  intros Hlen Hk. unfold loaded_byte. rewrite decide_True by done.
  by rewrite decide_True by lia.
Qed.

Lemma loaded_byte_beyond (mem : list Z) o k :
  (CARTRIDGE_RAM + length_of (cartridgeRam o) ≤ k)%nat →
  loaded_byte mem o k = mem !! k.
Proof.
  intros Hk. destruct address_map as (H0 & H1 & H2 & H3 & H4).
  unfold loaded_byte. case_decide as Hlen; [|symmetry; apply lookup_ge_None_2; lia].
  rewrite decide_False by lia. rewrite decide_False by lia. by rewrite decide_False by lia.
Qed.

(** C4, as the code has it. [loadSaveState] compares no lengths and never
    fails with a size mismatch: on every memory and every save state it
    returns [true]. It stores 0x400 bytes at InternalState and 0x8000 bytes at
    EmulatedMemory whatever the stored lengths: where the stored region is
    shorter the missing bytes are stored as 0, where it is longer the bytes
    past the size are not stored; at CartridgeRam it stores the stored array
    for its own length; the bytes after that keep their values. *)
Theorem loadSaveState_pads_and_truncates (mem : list Z) (s : SaveStateData) :
  ∃ mem',
    loadSaveState (Some mem) (Some s) = Normal (true, mem')
    ∧ length mem' = length mem
    ∧ (∀ k, (k < length mem)%nat → (k < WASMBOY_INTERNAL_STATE.SIZE)%nat →
         mem' !! k = Some (ToUint8 (wasmBoyInternalState (d_wasmBoyMemory s) !! k)))
    ∧ (∀ k, (k < length mem)%nat →
         (length (wasmBoyInternalState (d_wasmBoyMemory s)) ≤ k < WASMBOY_INTERNAL_STATE.SIZE)%nat →
         mem' !! k = Some 0)
    ∧ (∀ i, (GAMEBOY_MEMORY.LOCATION + i < length mem)%nat → (i < GAMEBOY_MEMORY.SIZE)%nat →
         mem' !! (GAMEBOY_MEMORY.LOCATION + i)%nat
         = Some (ToUint8 (gameBoyMemory (d_wasmBoyMemory s) !! i)))
    ∧ (∀ i, (GAMEBOY_MEMORY.LOCATION + i < length mem)%nat →
         (length (gameBoyMemory (d_wasmBoyMemory s)) ≤ i < GAMEBOY_MEMORY.SIZE)%nat →
         mem' !! (GAMEBOY_MEMORY.LOCATION + i)%nat = Some 0)
    ∧ (∀ i, (CARTRIDGE_RAM + i < length mem)%nat →
         (i < length_of (cartridgeRam (d_wasmBoyMemory s)))%nat →
         mem' !! (CARTRIDGE_RAM + i)%nat
         = Some (ToUint8 (index_of (cartridgeRam (d_wasmBoyMemory s)) i)))
    ∧ (∀ k, (CARTRIDGE_RAM + length_of (cartridgeRam (d_wasmBoyMemory s)) ≤ k)%nat →
         mem' !! k = mem !! k).
Proof.
  destruct (loadSaveState_run mem s) as (mem' & Hrun & Hlen & Hlookup).
  exists mem'. split; [done|]. split; [done|].
  repeat split.
  - intros k Hk Hin. rewrite Hlookup. by apply loaded_byte_internal.
  - intros k Hk Hin. rewrite Hlookup, loaded_byte_internal by lia.
    by rewrite lookup_ge_None_2 by lia.
  - intros i Hk Hin. rewrite Hlookup, loaded_byte_gameboy by lia.
    do 3 f_equal. lia.
  - intros i Hk Hin. rewrite Hlookup, loaded_byte_gameboy by lia.
    by rewrite lookup_ge_None_2 by lia.
  - intros i Hk Hin. rewrite Hlookup, loaded_byte_ram by lia.
    do 3 f_equal. lia.
  - intros k Hk. rewrite Hlookup. by apply loaded_byte_beyond.
Qed.

(** C4, as stated, fails: a save state whose InternalState has 1 byte and
    whose EmulatedMemory has 0 bytes is decoded with the result [true]; the
    bytes missing from the stored regions are written as 0 over the memory. *)
Lemma loadSaveState_short_state_accepted :
  length (wasmBoyInternalState (d_wasmBoyMemory short_state)) ≠ WASMBOY_INTERNAL_STATE.SIZE
  ∧ length (gameBoyMemory (d_wasmBoyMemory short_state)) ≠ GAMEBOY_MEMORY.SIZE
  ∧ sample_memory !! GAMEBOY_MEMORY.LOCATION = Some 0x22
  ∧ ∃ mem',
      loadSaveState (Some sample_memory) (Some short_state) = Normal (true, mem')
      ∧ mem' !! 0%nat = Some 7
      ∧ mem' !! 1%nat = Some 0
      ∧ mem' !! GAMEBOY_MEMORY.LOCATION = Some 0.
Proof.
  split; [unfold WASMBOY_INTERNAL_STATE.SIZE; simpl; lia|].
  split; [unfold GAMEBOY_MEMORY.SIZE; simpl length; lia|].
  split; [vm_compute; reflexivity|].
  destruct (loadSaveState_run sample_memory short_state) as (mem' & Hrun & Hlen & Hlookup).
  exists mem'. split; [exact Hrun|]. rewrite !Hlookup.
  repeat split; vm_compute; reflexivity.
Qed.






(** ** Claim on loading a ROM *)

(** C7, as the code has it. With a memory and a core bound,
    [loadCartridgeRom(bytes)] stores the bytes of the image that are not 0
    and skips those that are 0: in the memory it hands to the reset of the
    core, for every index [i] of the image with CartridgeRom + i inside the
    buffer, the byte at CartridgeRom + i is [bytes[i]] when that is not 0 and
    is the byte that was there before when [bytes[i]] is 0. *)
Theorem loadCartridgeRom_stores_nonzero_bytes
    (gameBytes mem : list Z) bootRom instance (w : World) :
  wasmByteMemory w = Some mem → wasmInstance w = Some instance →
  is_uint8array gameBytes →
  ∃ w' mem',
    loadCartridgeRom gameBytes bootRom w = (Normal tt, w')
    ∧ wasmByteMemory w' = Some (exports_initialize instance 0 mem')
    ∧ length mem' = length mem
    ∧ (∀ i b, gameBytes !! i = Some b → (CARTRIDGE_ROM + i < length mem)%nat → b ≠ 0 →
         mem' !! (CARTRIDGE_ROM + i)%nat = Some b)
    ∧ (∀ i, gameBytes !! i = Some 0 →
         mem' !! (CARTRIDGE_ROM + i)%nat = mem !! (CARTRIDGE_ROM + i)%nat).
Proof.
  intros Hmem Hinst Hbytes.
  exists (set_loadedROM true
            (log CallInitialize
               (set_wasmByteMemory
                  (Some (exports_initialize instance 0 (rom_loaded gameBytes mem)))
                  (set_wasmByteMemory (Some (rom_loaded gameBytes mem)) w)))),
    (rom_loaded gameBytes mem).
  split; [by apply loadCartridgeRom_run|]. split; [reflexivity|].
  split; [apply rom_loaded_length|]. split.
  - intros i b Hb Hlen Hnz. rewrite (rom_loaded_stored _ _ _ _ Hb Hnz Hlen).
    f_equal. apply Z.mod_small.
    eapply (Forall_lookup_1 (λ b, 0 ≤ b < 256)); [exact Hbytes | exact Hb].
  - intros i Hb. by apply rom_loaded_skipped.
Qed.

Lemma loadCartridgeRom_stores_nonzero_bytes_witness :
  wasmByteMemory (fresh_world (Some idle_core) (Some sample_memory)) = Some sample_memory
  ∧ wasmInstance (fresh_world (Some idle_core) (Some sample_memory)) = Some idle_core
  ∧ is_uint8array [0xC3; 0x00; 0x50]
  ∧ ∃ w' mem',
      loadCartridgeRom [0xC3; 0x00; 0x50] None (fresh_world (Some idle_core) (Some sample_memory))
      = (Normal tt, w')
      ∧ wasmByteMemory w' = Some (exports_initialize idle_core 0 mem')
      ∧ length mem' = length sample_memory
      ∧ (∀ i b, [0xC3; 0x00; 0x50] !! i = Some b →
           (CARTRIDGE_ROM + i < length sample_memory)%nat → b ≠ 0 →
           mem' !! (CARTRIDGE_ROM + i)%nat = Some b)
      ∧ (∀ i, [0xC3; 0x00; 0x50] !! i = Some 0 →
           mem' !! (CARTRIDGE_ROM + i)%nat = sample_memory !! (CARTRIDGE_ROM + i)%nat).
Proof.
  assert (is_uint8array [0xC3; 0x00; 0x50]) as Hbytes
    by (unfold is_uint8array; repeat constructor; lia).
  split; [reflexivity|]. split; [reflexivity|]. split; [exact Hbytes|].
  exact (loadCartridgeRom_stores_nonzero_bytes [0xC3; 0x00; 0x50] sample_memory None
           idle_core (fresh_world (Some idle_core) (Some sample_memory))
           eq_refl eq_refl Hbytes).
Defined.

(** C7, as stated, fails: loading an image of 0x148 zero bytes over a memory
    whose byte at CartridgeRom + 0x0147 is 0x03 leaves that byte 0x03, while
    the image has 0 at index 0x0147. *)
Lemma loadCartridgeRom_keeps_stale_byte :
  zero_rom !! Z.to_nat 0x0147 = Some 0
  ∧ ∃ w' mem',
      loadCartridgeRom zero_rom None (fresh_world (Some idle_core) (Some sample_memory))
      = (Normal tt, w')
      ∧ wasmByteMemory w' = Some mem'
      ∧ mem' !! (CARTRIDGE_ROM + Z.to_nat 0x0147)%nat = Some 0x03.
Proof.
  assert (zero_rom !! Z.to_nat 0x0147 = Some 0) as Hzero by (vm_compute; reflexivity).
  split; [exact Hzero|].
  exists (set_loadedROM true
            (log CallInitialize
               (set_wasmByteMemory
                  (Some (exports_initialize idle_core 0 (rom_loaded zero_rom sample_memory)))
                  (set_wasmByteMemory (Some (rom_loaded zero_rom sample_memory))
                     (fresh_world (Some idle_core) (Some sample_memory)))))),
    (rom_loaded zero_rom sample_memory).
  split; [by apply loadCartridgeRom_run|]. split; [reflexivity|].
  rewrite (rom_loaded_skipped _ _ _ Hzero). vm_compute. reflexivity.
Qed.

(** ** Claim on the immutability of save states *)

(** C8. Every save state that [getSaveState] returns refers to the one
    object of the schema: a second encode stores its arrays into that
    object, and the first save state then reads as the second memory. With
    the sample memory encoded first and a memory of zeros second, byte 0 of
    the first state's InternalState goes from 0x33 to 0. *)
Theorem getSaveState_overwrites_earlier_state :
  (∀ (mem1 mem2 : list Z) (w : World),
     ∃ s1 w1 s2 w2,
       getSaveState (Some mem1) w = (Normal s1, w1)
       ∧ getSaveState (Some mem2) w1 = (Normal s2, w2)
       ∧ wasmBoyMemory s1 = wasmBoyMemory s2
       ∧ d_wasmBoyMemory (snapshot (heap w1) s1) = regions mem1
       ∧ d_wasmBoyMemory (snapshot (heap w2) s1) = regions mem2
       ∧ d_wasmBoyMemory (snapshot (heap w2) s2) = regions mem2)
  ∧ wasmBoyInternalState (regions sample_memory) !! 0%nat = Some 0x33
  ∧ wasmBoyInternalState (regions (replicate (Z.to_nat 0x80000) 0)) !! 0%nat = Some 0.
Proof.
  split.
  - intros mem1 mem2 w. eexists _, _, _, _.
    split; [apply getSaveState_run|]. split; [apply getSaveState_run|].
    split; [reflexivity|]. unfold snapshot.
    cbn [d_wasmBoyMemory wasmBoyMemory heap set_heap].
    by rewrite !lookup_total_insert_eq.
  - unfold regions. cbn [wasmBoyInternalState].
    rewrite !list_lookup_fmap, !lookup_seq_lt
      by (unfold WASMBOY_INTERNAL_STATE.SIZE; lia).
    split; vm_compute; reflexivity.
Qed.

(** ** Claims on [loadState] *)

Lemma defaultIndexLoop_spec (saveStates : list SaveStateData) (n fuel : nat) (index : Z) :
  (n ≤ length saveStates)%nat → (n < fuel)%nat →
  ∃ r, defaultIndexLoop fuel saveStates (Z.of_nat n - 1) index = Some (Normal r)
       ∧ ((∃ k s, r = Z.of_nat k ∧ (k < n)%nat ∧ saveStates !! k = Some s
                  ∧ truthy_flag (d_isAuto s) = false
                  ∧ ∀ j s', (k < j < n)%nat → saveStates !! j = Some s' →
                            truthy_flag (d_isAuto s') = true)
          ∨ (r = index
             ∧ ∀ j s', (j < n)%nat → saveStates !! j = Some s' →
                       truthy_flag (d_isAuto s') = true)).
Proof.
  revert fuel index. induction n as [|n IH]; intros fuel index Hn Hfuel.
  - destruct fuel as [|fuel]; [lia|]. exists index. split; [reflexivity|].
    right. split; [done|]. intros j s' Hj. lia.
  - destruct fuel as [|fuel]; [lia|].
    destruct (lookup_lt_is_Some_2 saveStates n) as [s Hs]; [lia|].
    cbn [defaultIndexLoop].
    replace (0 <=? Z.of_nat (S n) - 1) with true by (symmetry; apply Z.leb_le; lia).
    cbn [negb]. unfold lookupZ.
    replace (Z.of_nat (S n) - 1 <? 0) with false by (symmetry; apply Z.ltb_ge; lia).
    replace (Z.to_nat (Z.of_nat (S n) - 1)) with n by lia.
    rewrite Hs.
    destruct (truthy_flag (d_isAuto s)) eqn:Hauto; cbn [negb].
    + replace (Z.of_nat (S n) - 1 - 1) with (Z.of_nat n - 1) by lia.
      destruct (IH fuel index) as (r & Hr & Hspec); [lia|lia|].
      exists r. split; [exact Hr|].
      destruct Hspec as [(k & sk & -> & Hk & Hsk & Hman & Hafter)|(-> & Hall)].
      * left. exists k, sk. repeat split; [lia|done|done|].
        intros j s' Hj Hs'. destruct (decide (j = n)) as [->|Hne].
        -- rewrite Hs in Hs'. by injection Hs' as <-.
        -- apply (Hafter j s'); [lia|done].
      * right. split; [done|]. intros j s' Hj Hs'.
        destruct (decide (j = n)) as [->|Hne].
        -- rewrite Hs in Hs'. by injection Hs' as <-.
        -- apply (Hall j s'); [lia|done].
    + destruct fuel as [|fuel]; [lia|]. cbn [defaultIndexLoop].
      change (0 <=? -1 - 1) with false. cbn [negb].
      exists (Z.of_nat (S n) - 1). split; [reflexivity|].
      left. exists n, s. repeat split; [lia|lia|done|done|].
      intros j s' Hj. lia.
Qed.

(** The loop ends within its fuel and yields the selected index. *)
Lemma defaultSaveStateIndex_selected (saveStates : list SaveStateData) :
  saveStates ≠ [] →
  ∃ k, defaultSaveStateIndex saveStates = Some (Normal (Z.of_nat k)) ∧ selected saveStates k.
Proof.
  intros Hne. unfold defaultSaveStateIndex.
  assert (0 < length saveStates)%nat as Hpos by (destruct saveStates; [done|simpl; lia]).
  destruct (defaultIndexLoop_spec saveStates (length saveStates) (S (length saveStates))
              (Z.of_nat (length saveStates) - 1))
    as (r & Hr & Hspec); [lia|lia|].
  destruct Hspec as [(k & s & -> & Hk & Hs & Hman & Hafter)|(-> & Hall)].
  - exists k. split; [exact Hr|]. split; [done|]. left. exists s.
    split; [done|]. split; [done|]. intros j s' Hj Hs'.
    apply (Hafter j s'); [|done]. apply lookup_lt_Some in Hs'. lia.
  - exists (length saveStates - 1)%nat. split.
    + rewrite Hr. do 2 f_equal. lia.
    + split; [lia|]. right. split; [lia|]. intros j s' Hs'.
      apply (Hall j s'); [|done]. by apply lookup_lt_Some in Hs'.
Qed.

Lemma loadState_default_run (index : option Z) (w : World) mem instance obj saveStates :
  truthy index = false →
  wasmByteMemory w = Some mem → wasmInstance w = Some instance →
  next_call_fails w = false →
  idb w !! getCartridgeHeader (Some mem) = Some obj →
  co_saveStates obj = Some saveStates → saveStates ≠ [] →
  ∃ k s mem' w',
    saveStates !! k = Some s ∧ selected saveStates k
    ∧ loadSaveState (Some mem) (Some s) = Normal (true, mem')
    ∧ loadState index w = (Normal (Some Fulfilled), w')
    ∧ wasmByteMemory w' = Some (exports_loadState instance mem')
    ∧ trace w' = trace w ++ [IdbGet (getCartridgeHeader (Some mem)); CallLoadState].
Proof.
  intros Hindex Hmem Hinst Hok Hobj Hstates Hne.
  destruct (defaultSaveStateIndex_selected saveStates Hne) as (k & Hk & Hsel).
  destruct (lookup_lt_is_Some_2 saveStates k) as [s Hs]; [apply Hsel|].
  destruct (loadSaveState_run mem s) as (mem' & Hrun & Hlen & Hlookup).
  exists k, s, mem'.
  unfold loadState, executor, try_catch, bind, gets, idbKeyval_get.
  rewrite Hmem, Hok. 
  pose proof (getCartridgeHeader_eq mem) as Hh.
  destruct (getCartridgeHeader (Some mem)) as [h|] eqn:Hheader; [clear Hh|discriminate Hh].
  cbn [idb set_idbFaults log].
  rewrite Hobj. cbn [mbind option_bind]. rewrite Hstates.
  unfold loadState_callback, try_catch, bind, gets, ret, modify, callExport.
  rewrite Hindex. cbn [negb]. rewrite Hk.
  cbn [wasmByteMemory set_idbFaults log]. rewrite Hmem.
  cbn [mbind option_bind]. unfold lookupZ.
  replace (Z.of_nat k <? 0) with false by (symmetry; apply Z.ltb_ge; lia).
  rewrite Nat2Z.id, Hs, Hrun.
  cbn [wasmInstance wasmByteMemory set_wasmByteMemory set_idbFaults log].
  rewrite Hinst. cbn [fmap option_fmap option_map].
  rewrite bool_decide_true by eauto. cbn [negb settle].
  eexists. split; [done|]. split; [done|]. split; [done|].
  split; [reflexivity|].
  cbn [wasmByteMemory trace log set_wasmByteMemory set_idbFaults].
  split; [reflexivity|]. by rewrite <- app_assoc.
Qed.


Lemma selected_unique (saveStates : list SaveStateData) (k k' : nat) :
  selected saveStates k → selected saveStates k' → k = k'.
Proof.
  intros [Hk [(s & Hs & Hman & Hafter)|[Hlast Hall]]]
         [Hk' [(s' & Hs' & Hman' & Hafter')|[Hlast' Hall']]].
  - destruct (Nat.lt_trichotomy k k') as [Hlt|[Heq|Hgt]]; [|done|].
    + rewrite (Hafter k' s' Hlt Hs') in Hman'. discriminate Hman'.
    + rewrite (Hafter' k s Hgt Hs) in Hman. discriminate Hman.
  - rewrite (Hall' k s Hs) in Hman. discriminate Hman.
  - rewrite (Hall k' s' Hs') in Hman'. discriminate Hman'.
  - lia.
Qed.

(** C5. With a record in the store whose [saveStates] is not empty,
    [loadState] without an index resolves after decoding the selected entry
    into the memory (and telling the core to load its state): the most
    recent entry whose [isAuto] is not set, or the most recent entry when
    [isAuto] is set on all of them. For [saveStates] made of an automatic, a
    manual and an automatic entry, in this order, the entry decoded is the
    manual one. *)
Theorem loadState_default_selection (w : World) mem instance obj saveStates :
  wasmByteMemory w = Some mem → wasmInstance w = Some instance →
  next_call_fails w = false →
  idb w !! getCartridgeHeader (Some mem) = Some obj →
  co_saveStates obj = Some saveStates → saveStates ≠ [] →
  ∃ k s mem' w',
    saveStates !! k = Some s ∧ selected saveStates k
    ∧ loadSaveState (Some mem) (Some s) = Normal (true, mem')
    ∧ loadState None w = (Normal (Some Fulfilled), w')
    ∧ wasmByteMemory w' = Some (exports_loadState instance mem')
    ∧ (∀ a1 m2 a3,
         saveStates = [a1; m2; a3] →
         truthy_flag (d_isAuto a1) = true → truthy_flag (d_isAuto m2) = false →
         truthy_flag (d_isAuto a3) = true →
         s = m2).
Proof.
  intros Hmem Hinst Hok Hobj Hstates Hne.
  destruct (loadState_default_run None w mem instance obj saveStates)
    as (k & s & mem' & w' & Hs & Hsel & Hrun & Hload & Hmem' & _); try done.
  exists k, s, mem', w'. repeat (split; [done|]).
  intros a1 m2 a3 -> Ha1 Hm2 Ha3.
  assert (selected [a1; m2; a3] 1) as Hsel1.
  { split; [simpl; lia|]. left. exists m2. split; [done|]. split; [done|].
    intros j s' Hj Hs'. destruct j as [|[|[|j]]]; try lia; [|done].
    simpl in Hs'. by injection Hs' as <-. }
  rewrite (selected_unique _ _ _ Hsel Hsel1) in Hs. simpl in Hs. by injection Hs.
Qed.

Lemma loadState_default_selection_witness :
  wasmByteMemory (world_with_states auto_manual_auto) = Some sample_memory
  ∧ wasmInstance (world_with_states auto_manual_auto) = Some idle_core
  ∧ next_call_fails (world_with_states auto_manual_auto) = false
  ∧ idb (world_with_states auto_manual_auto) !! getCartridgeHeader (Some sample_memory)
    = Some {| co_cartridgeRam := None; co_saveStates := Some auto_manual_auto |}
  ∧ co_saveStates {| co_cartridgeRam := None; co_saveStates := Some auto_manual_auto |}
    = Some auto_manual_auto
  ∧ auto_manual_auto ≠ []
  ∧ ∃ k s mem' w',
      auto_manual_auto !! k = Some s ∧ selected auto_manual_auto k
      ∧ loadSaveState (Some sample_memory) (Some s) = Normal (true, mem')
      ∧ loadState None (world_with_states auto_manual_auto) = (Normal (Some Fulfilled), w')
      ∧ wasmByteMemory w' = Some (exports_loadState idle_core mem')
      ∧ (∀ a1 m2 a3,
           auto_manual_auto = [a1; m2; a3] →
           truthy_flag (d_isAuto a1) = true → truthy_flag (d_isAuto m2) = false →
           truthy_flag (d_isAuto a3) = true →
           s = m2).
Proof.
  assert (idb (world_with_states auto_manual_auto) !! getCartridgeHeader (Some sample_memory)
          = Some {| co_cartridgeRam := None; co_saveStates := Some auto_manual_auto |})
    as Hobj by apply lookup_singleton_eq.
  assert (auto_manual_auto ≠ []) as Hne by discriminate.
  split; [reflexivity|]. split; [reflexivity|]. split; [reflexivity|].
  split; [exact Hobj|]. split; [reflexivity|]. split; [exact Hne|].
  exact (loadState_default_selection (world_with_states auto_manual_auto) sample_memory
           idle_core {| co_cartridgeRam := None; co_saveStates := Some auto_manual_auto |}
           auto_manual_auto eq_refl eq_refl eq_refl Hobj eq_refl Hne).
Defined.


(** ** Claims on crash recovery *)

(** The listener leaves the snapshot of the memory under
    [WASMBOY_UNLOAD_STORAGE]; the object of the schema then holds plain
    arrays. *)
Lemma beforeunload_run (mem : list Z) (w : World) :
  wasmByteMemory w = Some mem →
  ∃ w', beforeunload w = (Normal tt, w')
        ∧ localStorage w'
          = <[WASMBOY_UNLOAD_STORAGE := unload_document mem (now w)]> (localStorage w)
        ∧ heap w' = <[SCHEMA_MEMORY := untype (regions mem)]> (heap w).
Proof.
  intros Hmem. unfold beforeunload, bind, gets. rewrite Hmem, getSaveState_run.
  unfold untype_properties, bind, gets, store_wasmBoyInternalState, store_gameBoyMemory,
    store_cartridgeRam, modify.
  world_simpl. cbn [wasmBoyMemory date name isAuto].
  rewrite !lookup_total_insert_eq.
  eexists. split; [reflexivity|]. world_simpl.
  unfold snapshot. cbn [wasmBoyMemory date name isAuto].
  rewrite !lookup_total_insert_eq, !insert_insert_eq.
  split; reflexivity.
Qed.

(** [saveCartridgeRam] with both arguments passed in: it settles, leaves
    [localStorage] alone and starts with a [get] on the store. *)
Lemma saveCartridgeRam_frame h ram (w : World) :
  ∃ r w1,
    saveCartridgeRam (Some h) (Some ram) w = (Normal (Some r), w1)
    ∧ localStorage w1 = localStorage w
    ∧ ∃ events, trace w1 = trace w ++ IdbGet (Some h) :: events.
Proof.
  unfold saveCartridgeRam, executor, try_catch, bind, gets, ret, idbKeyval_get, idbKeyval_set.
  rewrite !bool_decide_true by eauto. cbn [andb negb orb].
  destruct (next_call_fails w); [frame_done|].
  destruct (next_call_fails _); frame_done.
Qed.

Lemma saveState_frame h s (w : World) :
  ∃ r w2,
    saveState (Some h) s w = (Normal r, w2)
    ∧ localStorage w2 = localStorage w
    ∧ ∃ events, trace w2 = trace w ++ events.
Proof.
  unfold saveState, executor, try_catch, bind, gets, ret, callExport.
  destruct (wasmInstance w) as [instance|];
    [|eexists _, _; split; [reflexivity|]; split; [reflexivity|];
      exists []; by rewrite app_nil_r].
  world_simpl.
  destruct s as [s|].
  - unfold idbKeyval_get, idbKeyval_set. world_simpl.
    destruct (next_call_fails _); [frame_done|].
    destruct (next_call_fails _); frame_done.
  - destruct (wasmByteMemory w) as [mem|]; cbn [fmap option_fmap option_map].
    + rewrite getSaveState_run.
      unfold idbKeyval_get, idbKeyval_set. world_simpl.
      destruct (next_call_fails _); [frame_done|].
      destruct (next_call_fails _); frame_done.
    + unfold getSaveState, throw. frame_done.
Qed.

(** When the first call to the store fails, [saveCartridgeRam] rejects and
    the store is as before. *)
Lemma saveCartridgeRam_get_fails h ram (w : World) :
  next_call_fails w = true →
  ∃ w1, saveCartridgeRam (Some h) (Some ram) w = (Normal (Some (Rejected StoreUnavailable)), w1)
        ∧ idb w1 = idb w ∧ localStorage w1 = localStorage w.
Proof.
  intros Hfail.
  unfold saveCartridgeRam, executor, try_catch, bind, gets, ret, idbKeyval_get.
  rewrite !bool_decide_true by eauto. cbn [andb negb orb]. rewrite Hfail.
  eexists. split; [reflexivity|]. split; reflexivity.
Qed.

(** With no failure scheduled, [saveCartridgeRam] fulfils and the record of
    the header holds the RAM passed in, its save states unchanged. *)
Lemma saveCartridgeRam_ok h ram (w : World) :
  idbFaults w = [] →
  ∃ w1, saveCartridgeRam (Some h) (Some ram) w = (Normal (Some Fulfilled), w1)
        ∧ idb w1 = <[Some h := {| co_cartridgeRam := Some ram;
                                  co_saveStates := idb w !! Some h ≫= co_saveStates |}]> (idb w)
        ∧ idbFaults w1 = [] ∧ heap w1 = heap w
        ∧ wasmInstance w1 = wasmInstance w ∧ wasmByteMemory w1 = wasmByteMemory w.
Proof.
  intros Hfaults.
  unfold saveCartridgeRam, executor, try_catch, bind, gets, ret, idbKeyval_get,
    idbKeyval_set, next_call_fails.
  rewrite !bool_decide_true by eauto. cbn [andb negb orb].
  world_simpl. rewrite Hfaults. cbn [head tail default from_option id].
  world_simpl. eexists. split; [reflexivity|]. world_simpl.
  split; [|done].
  by destruct (idb w !! Some h).
Qed.

(** With no failure scheduled and a core bound, [saveState] of a save state
    passed in fulfils and appends its contents to the save states of the
    header. *)
Lemma saveState_ok h s instance (w : World) :
  idbFaults w = [] → wasmInstance w = Some instance →
  ∃ w2, saveState (Some h) (Some s) w = (Normal (Some Fulfilled), w2)
        ∧ idb w2 = <[Some h := {| co_cartridgeRam := idb w !! Some h ≫= co_cartridgeRam;
                                  co_saveStates :=
                                    Some (default [] (idb w !! Some h ≫= co_saveStates)
                                          ++ [snapshot (heap w) s]) |}]> (idb w).
Proof.
  intros Hfaults Hinst.
  unfold saveState, executor, try_catch, bind, gets, ret, callExport, idbKeyval_get,
    idbKeyval_set, next_call_fails.
  rewrite Hinst. world_simpl. rewrite Hfaults. cbn [head tail default from_option id].
  world_simpl. rewrite !bool_decide_true by eauto. cbn [negb settle].
  eexists. split; [reflexivity|]. world_simpl.
  by destruct (idb w !! Some h).
Qed.

(** When the first call to the store fails, [initialize] has already
    removed the pending snapshot, and nothing reaches the store. *)
Lemma initialize_get_fails (instance : option WasmInstance) (memory : option (list Z))
    (includeBootRom : bool) (w : World) (doc : UnloadStorageObject) :
  localStorage w !! WASMBOY_UNLOAD_STORAGE = Some doc → next_call_fails w = true →
  ∃ w', initialize instance memory includeBootRom w
        = (Normal (Replayed (Some (Rejected StoreUnavailable)) None), w')
        ∧ localStorage w' !! WASMBOY_UNLOAD_STORAGE = None
        ∧ idb w' = idb w.
Proof.
  intros Hdoc Hfail. unfold initialize, bind, modify, gets, ret. world_simpl. rewrite Hdoc.
  destruct (us_saveState doc) as [d|]; [unfold alloc; world_simpl|];
    match goal with |- context [saveCartridgeRam ?h ?r ?W] =>
      destruct (saveCartridgeRam_get_fails (Uint8Array_from (us_header doc))
                  (Uint8Array_from (us_cartridgeRam doc)) W Hfail)
        as (w1 & Heq & Hidb & Hls)
    end;
    rewrite Heq; exists w1; (split; [reflexivity|]);
    rewrite Hls, Hidb; world_simpl; (split; [apply lookup_delete_eq|reflexivity]).
Qed.

(** C1, as the code has it. With a snapshot pending, [initialize] removes
    the entry from [localStorage] first and then replays it:
    [saveCartridgeRam] settles, and [saveState] is called if and only if it
    fulfilled. The entry is absent afterwards whatever the outcome of the two
    steps. When no call to the store fails (a core being bound and the
    snapshot holding a save state) both steps fulfil, and the record of the
    header holds the RAM of the snapshot and, appended to its save states,
    the save state of the snapshot. *)
Theorem initialize_removes_snapshot_before_replay
    (instance : option WasmInstance) (memory : option (list Z)) (includeBootRom : bool)
    (w : World) (doc : UnloadStorageObject) :
  localStorage w !! WASMBOY_UNLOAD_STORAGE = Some doc →
  ∃ ram state w',
    initialize instance memory includeBootRom w = (Normal (Replayed (Some ram) state), w')
    ∧ localStorage w' !! WASMBOY_UNLOAD_STORAGE = None
    ∧ (∃ events,
         trace w' = trace w ++ [AddEventListener "beforeunload";
                                GetItem WASMBOY_UNLOAD_STORAGE;
                                RemoveItem WASMBOY_UNLOAD_STORAGE;
                                IdbGet (Some (Uint8Array_from (us_header doc)))] ++ events)
    ∧ (state = None ↔ ram ≠ Fulfilled)
    ∧ (idbFaults w = [] → ∀ core d, instance = Some core → us_saveState doc = Some d →
       ram = Fulfilled ∧ state = Some (Some Fulfilled)
       ∧ idb w' !! Some (Uint8Array_from (us_header doc))
         = Some {| co_cartridgeRam := Some (Uint8Array_from (us_cartridgeRam doc));
                   co_saveStates :=
                     Some (default [] (idb w !! Some (Uint8Array_from (us_header doc))
                                       ≫= co_saveStates)
                           ++ [{| d_wasmBoyMemory := retype (d_wasmBoyMemory d);
                                  d_date := d_date d; d_name := d_name d;
                                  d_isAuto := d_isAuto d |}]) |}).
Proof.
  intros Hdoc. unfold initialize, bind, modify, gets, ret. world_simpl. rewrite Hdoc.
  set (header := Uint8Array_from (us_header doc)).
  set (cartridgeRam := Uint8Array_from (us_cartridgeRam doc)).
  assert (∀ (W1 : World) (s : option SaveState),
    localStorage W1 = delete WASMBOY_UNLOAD_STORAGE (localStorage w) →
    trace W1 = trace w ++ [AddEventListener "beforeunload";
                           GetItem WASMBOY_UNLOAD_STORAGE;
                           RemoveItem WASMBOY_UNLOAD_STORAGE] →
    ∃ ram state w',
      (let (c, w1) := saveCartridgeRam (Some header) (Some cartridgeRam) W1 in
       match c with
       | Normal ram =>
           match ram with
           | Some Fulfilled =>
               λ w0, let (c, w2) := saveState (Some header) s w0 in
                     match c with
                     | Normal state => (Normal (Replayed ram (Some state)), w2)
                     | Throw e => (Throw e, w2)
                     end
           | _ => λ w0, (Normal (Replayed ram None), w0)
           end w1
       | Throw e => (Throw e, w1)
       end) = (Normal (Replayed (Some ram) state), w')
      ∧ localStorage w' !! WASMBOY_UNLOAD_STORAGE = None
      ∧ (∃ events, trace w' = trace w ++ [AddEventListener "beforeunload";
                                          GetItem WASMBOY_UNLOAD_STORAGE;
                                          RemoveItem WASMBOY_UNLOAD_STORAGE;
                                          IdbGet (Some header)] ++ events)
      ∧ (state = None ↔ ram ≠ Fulfilled)
      ∧ (idbFaults W1 = [] → idb W1 = idb w →
         ∀ core s', wasmInstance W1 = Some core → s = Some s' →
         ram = Fulfilled ∧ state = Some (Some Fulfilled)
         ∧ idb w' !! Some header
           = Some {| co_cartridgeRam := Some cartridgeRam;
                     co_saveStates :=
                       Some (default [] (idb w !! Some header ≫= co_saveStates)
                             ++ [snapshot (heap W1) s']) |})) as Hreplay.
  { intros W1 s HlsW HtrW.
    destruct (saveCartridgeRam_frame header cartridgeRam W1)
      as (r & w1 & Heq & Hls & evs & Htr).
    rewrite Heq. destruct r as [|e].
    - destruct (saveState_frame header s w1) as (r2 & w2 & Heq2 & Hls2 & evs2 & Htr2).
      rewrite Heq2. exists Fulfilled, (Some r2), w2.
      split; [reflexivity|]. split; [rewrite Hls2, Hls, HlsW; apply lookup_delete_eq|].
      split; [exists (evs ++ evs2); rewrite Htr2, Htr, HtrW; by rewrite <- !app_assoc|].
      split; [split; [discriminate|intros H; by destruct H]|].
      intros Hfaults Hidb core s' Hcore ->.
      destruct (saveCartridgeRam_ok header cartridgeRam W1 Hfaults)
        as (w1' & Heq' & Hidb1 & Hfaults1 & Hheap1 & Hinst1 & _).
      rewrite Heq in Heq'. injection Heq' as <-.
      destruct (saveState_ok header s' core w1 Hfaults1) as (w2' & Heq2' & Hidb2);
        [by rewrite Hinst1|].
      rewrite Heq2 in Heq2'. injection Heq2' as -> <-.
      split; [done|]. split; [done|].
      rewrite Hidb2, lookup_insert_eq, Hidb1, lookup_insert_eq, Hheap1, Hidb.
      reflexivity.
    - exists (Rejected e), None, w1.
      split; [reflexivity|]. split; [rewrite Hls, HlsW; apply lookup_delete_eq|].
      split; [exists evs; rewrite Htr, HtrW; by rewrite <- !app_assoc|].
      split; [split; [discriminate|done]|].
      intros Hfaults Hidb core s' Hcore ->.
      destruct (saveCartridgeRam_ok header cartridgeRam W1 Hfaults) as (w1' & Heq' & _).
      rewrite Heq in Heq'. discriminate Heq'. }
  destruct (us_saveState doc) as [d|] eqn:Hd.
  - unfold alloc. world_simpl.
    match goal with |- context [saveCartridgeRam _ _ ?W] => set (W1 := W) end.
    destruct (Hreplay W1
                (Some {| wasmBoyMemory := fresh (dom (heap w)); date := d_date d;
                         name := d_name d; isAuto := d_isAuto d |}))
      as (ram & state & w' & Heq & Hls & Htr & Hstate & Hok);
      [subst W1; world_simpl; reflexivity
      |subst W1; world_simpl; by rewrite <- !app_assoc|].
    exists ram, state, w'. split; [exact Heq|]. split; [exact Hls|].
    split; [exact Htr|]. split; [exact Hstate|].
    intros Hfaults core d' -> [= <-].
    destruct (Hok Hfaults eq_refl core _ eq_refl eq_refl) as (-> & -> & Hidb).
    split; [done|]. split; [done|]. rewrite Hidb. subst W1. unfold snapshot.
    world_simpl. cbn [wasmBoyMemory date name isAuto].
    by rewrite lookup_total_insert_eq.
  - match goal with |- context [saveCartridgeRam _ _ ?W] => set (W1 := W) end.
    destruct (Hreplay W1 None)
      as (ram & state & w' & Heq & Hls & Htr & Hstate & Hok);
      [subst W1; world_simpl; reflexivity
      |subst W1; world_simpl; by rewrite <- !app_assoc|].
    exists ram, state, w'. split; [exact Heq|]. split; [exact Hls|].
    split; [exact Htr|]. split; [exact Hstate|].
    intros Hfaults core d' _ [=].
Qed.

Lemma initialize_removes_snapshot_before_replay_witness :
  localStorage (pending_world []) !! WASMBOY_UNLOAD_STORAGE
  = Some (unload_document sample_memory 1000)
  ∧ ∃ ram state w',
      initialize (Some idle_core) (Some sample_memory) false (pending_world [])
      = (Normal (Replayed (Some ram) state), w')
      ∧ localStorage w' !! WASMBOY_UNLOAD_STORAGE = None
      ∧ (∃ events,
           trace w' = trace (pending_world [])
                      ++ [AddEventListener "beforeunload";
                          GetItem WASMBOY_UNLOAD_STORAGE;
                          RemoveItem WASMBOY_UNLOAD_STORAGE;
                          IdbGet (Some (Uint8Array_from
                                          (us_header (unload_document sample_memory 1000))))]
                      ++ events)
      ∧ (state = None ↔ ram ≠ Fulfilled)
      ∧ (idbFaults (pending_world []) = [] →
         ∀ core d, Some idle_core = Some core →
         us_saveState (unload_document sample_memory 1000) = Some d →
         ram = Fulfilled ∧ state = Some (Some Fulfilled)
         ∧ idb w' !! Some (Uint8Array_from (us_header (unload_document sample_memory 1000)))
           = Some {| co_cartridgeRam :=
                       Some (Uint8Array_from
                               (us_cartridgeRam (unload_document sample_memory 1000)));
                     co_saveStates :=
                       Some (default []
                               (idb (pending_world [])
                                  !! Some (Uint8Array_from
                                             (us_header (unload_document sample_memory 1000)))
                                ≫= co_saveStates)
                             ++ [{| d_wasmBoyMemory := retype (d_wasmBoyMemory d);
                                    d_date := d_date d; d_name := d_name d;
                                    d_isAuto := d_isAuto d |}]) |}).
Proof.
  assert (localStorage (pending_world []) !! WASMBOY_UNLOAD_STORAGE
          = Some (unload_document sample_memory 1000)) as Hdoc
    by apply lookup_singleton_eq.
  split; [exact Hdoc|].
  exact (initialize_removes_snapshot_before_replay (Some idle_core) (Some sample_memory)
           false (pending_world []) (unload_document sample_memory 1000) Hdoc).
Defined.

(** C1, as stated, fails: with the snapshot of the sample memory pending
    and the first call to the store failing, [saveCartridgeRam] rejects, yet
    the entry is gone from [localStorage] afterwards and the store is still
    empty: the snapshot is lost and no later start can retry. *)
Lemma initialize_loses_snapshot_when_store_fails :
  localStorage (pending_world [true]) !! WASMBOY_UNLOAD_STORAGE
  = Some (unload_document sample_memory 1000)
  ∧ ∃ w',
      initialize (Some idle_core) (Some sample_memory) false (pending_world [true])
      = (Normal (Replayed (Some (Rejected StoreUnavailable)) None), w')
      ∧ localStorage w' !! WASMBOY_UNLOAD_STORAGE = None
      ∧ idb w' = ∅.
Proof.
  assert (localStorage (pending_world [true]) !! WASMBOY_UNLOAD_STORAGE
          = Some (unload_document sample_memory 1000)) as Hdoc
    by apply lookup_singleton_eq.
  split; [exact Hdoc|].
  exact (initialize_get_fails (Some idle_core) (Some sample_memory) false
           (pending_world [true]) (unload_document sample_memory 1000) Hdoc eq_refl).
Qed.

(** ** Loading a ROM into a cleared memory *)

(** [clearMemory] leaves a memory of zeros of the same length. *)
Lemma clearMemory_run (mem : list Z) (w : World) :
  wasmByteMemory w = Some mem →
  ∃ w', clearMemory w = (Normal tt, w')
        ∧ wasmByteMemory w' = Some (replicate (length mem) 0).
Proof.
  intros Hmem. unfold clearMemory, bind, gets, modify. rewrite Hmem.
  eexists. split; [reflexivity|]. world_simpl. f_equal.
  unfold typedSet. apply list_eq. intros k.
  destruct (decide (k < length mem)%nat) as [Hk|Hk].
  - rewrite (for_loop_fill_hit (λ i, i) (λ _, ToUint8 (Some 0))); [|done|lia|done].
    by rewrite lookup_replicate_2.
  - rewrite !lookup_ge_None_2; [done| |].
    + rewrite length_replicate. lia.
    + rewrite (for_loop_fill_length (λ i, i) (λ _, ToUint8 (Some 0))). lia.
Qed.

(** Over a cleared memory the loop of [loadCartridgeRom] leaves the bytes of
    the image, zeros included. *)
Lemma rom_loaded_over_zeros (gameBytes : list Z) (n i : nat) (b : Z) :
  is_uint8array gameBytes → gameBytes !! i = Some b → (CARTRIDGE_ROM + i < n)%nat →
  rom_loaded gameBytes (replicate n 0) !! (CARTRIDGE_ROM + i)%nat = Some b.
Proof.
  intros Hbytes Hb Hlen.
  destruct (decide (b = 0)) as [->|Hnz].
  - rewrite rom_loaded_skipped by done. by apply lookup_replicate_2.
  - rewrite (rom_loaded_stored _ _ _ _ Hb Hnz) by (by rewrite length_replicate).
    f_equal. apply Z.mod_small.
    eapply (Forall_lookup_1 (λ b, 0 ≤ b < 256)); [exact Hbytes | exact Hb].
Qed.

(** * Further properties of the service *)

(** ** Clearing the memory and loading a ROM *)

(** Outside the window of the image the loop of [loadCartridgeRom] leaves
    the memory as it is. *)
Lemma rom_loaded_outside (gameBytes mem : list Z) (k : nat) :
  (k < CARTRIDGE_ROM ∨ CARTRIDGE_ROM + length gameBytes ≤ k)%nat →
  rom_loaded gameBytes mem !! k = mem !! k.
Proof.
  intros Hk. unfold rom_loaded, typedSet.
  apply (for_loop_cond_other (λ i, (CARTRIDGE_ROM + i)%nat)
           (λ i, ToUint8 (gameBytes !! i)) (λ i, truthy (gameBytes !! i))).
  intros j Hj _. lia.
Qed.

(** X1. With a memory bound, [clearMemory] leaves a memory of the same
    length in which every byte is 0 (the store at index [length], which its
    loop reaches, is dropped) and resets both flags of the loaded cartridge;
    the core, the store and [localStorage] are as before. *)
Theorem clearMemory_zeroes_and_resets (mem : list Z) (w : World) :
  wasmByteMemory w = Some mem →
  ∃ w', clearMemory w = (Normal tt, w')
        ∧ wasmByteMemory w' = Some (replicate (length mem) 0)
        ∧ loadedROM w' = false ∧ loadedRAM w' = false
        ∧ wasmInstance w' = wasmInstance w ∧ idb w' = idb w
        ∧ localStorage w' = localStorage w.
Proof.
  intros Hmem. destruct (clearMemory_run mem w Hmem) as (w' & Hrun & Hzero).
  exists w'. split; [exact Hrun|]. split; [exact Hzero|].
  revert Hrun. unfold clearMemory, bind, gets, modify. rewrite Hmem.
  intros [= <-]. by world_simpl.
Qed.

Lemma clearMemory_zeroes_and_resets_witness :
  wasmByteMemory (fresh_world (Some idle_core) (Some [1; 2; 3])) = Some [1; 2; 3]
  ∧ ∃ w', clearMemory (fresh_world (Some idle_core) (Some [1; 2; 3])) = (Normal tt, w')
          ∧ wasmByteMemory w' = Some (replicate (length [1; 2; 3]) 0)
          ∧ loadedROM w' = false ∧ loadedRAM w' = false
          ∧ wasmInstance w' = wasmInstance (fresh_world (Some idle_core) (Some [1; 2; 3]))
          ∧ idb w' = idb (fresh_world (Some idle_core) (Some [1; 2; 3]))
          ∧ localStorage w' = localStorage (fresh_world (Some idle_core) (Some [1; 2; 3])).
Proof.
  split; [reflexivity|].
  exact (clearMemory_zeroes_and_resets [1; 2; 3]
           (fresh_world (Some idle_core) (Some [1; 2; 3])) eq_refl).
Defined.

(** X2. [clearMemory] followed by [loadCartridgeRom]: the memory handed to
    the reset of the core holds the image at CartridgeRom, zero bytes
    included, and 0 everywhere else. *)
Theorem clearMemory_then_loadCartridgeRom
    (gameBytes mem : list Z) bootRom instance (w : World) :
  wasmByteMemory w = Some mem → wasmInstance w = Some instance →
  is_uint8array gameBytes →
  ∃ w' mem',
    (clearMemory;; loadCartridgeRom gameBytes bootRom) w = (Normal tt, w')
    ∧ wasmByteMemory w' = Some (exports_initialize instance 0 mem')
    ∧ loadedROM w' = true
    ∧ length mem' = length mem
    ∧ (∀ i b, gameBytes !! i = Some b → (CARTRIDGE_ROM + i < length mem)%nat →
         mem' !! (CARTRIDGE_ROM + i)%nat = Some b)
    ∧ (∀ k, (k < length mem)%nat →
         (k < CARTRIDGE_ROM ∨ CARTRIDGE_ROM + length gameBytes ≤ k)%nat →
         mem' !! k = Some 0).
Proof.
  intros Hmem Hinst Hbytes.
  destruct (clearMemory_run mem w Hmem) as (w1 & Hclear & Hzero).
  assert (wasmInstance w1 = Some instance) as Hinst1.
  { revert Hclear. unfold clearMemory, bind, gets, modify. rewrite Hmem.
    intros [= <-]. by world_simpl. }
  exists (set_loadedROM true
            (log CallInitialize
               (set_wasmByteMemory
                  (Some (exports_initialize instance 0
                           (rom_loaded gameBytes (replicate (length mem) 0))))
                  (set_wasmByteMemory
                     (Some (rom_loaded gameBytes (replicate (length mem) 0))) w1)))),
    (rom_loaded gameBytes (replicate (length mem) 0)).
  split.
  { unfold bind at 1. rewrite Hclear.
    by apply loadCartridgeRom_run. }
  split; [reflexivity|]. split; [reflexivity|].
  split; [by rewrite rom_loaded_length, length_replicate|]. split.
  - intros i b Hb Hlen. by apply rom_loaded_over_zeros.
  - intros k Hk Hout. rewrite rom_loaded_outside by done.
    by apply lookup_replicate_2.
Qed.

Lemma clearMemory_then_loadCartridgeRom_witness :
  wasmByteMemory (fresh_world (Some idle_core) (Some sample_memory)) = Some sample_memory
  ∧ wasmInstance (fresh_world (Some idle_core) (Some sample_memory)) = Some idle_core
  ∧ is_uint8array [0xC3; 0x00; 0x50]
  ∧ ∃ w' mem',
      (clearMemory;; loadCartridgeRom [0xC3; 0x00; 0x50] None)
        (fresh_world (Some idle_core) (Some sample_memory)) = (Normal tt, w')
      ∧ wasmByteMemory w' = Some (exports_initialize idle_core 0 mem')
      ∧ loadedROM w' = true
      ∧ length mem' = length sample_memory
      ∧ (∀ i b, [0xC3; 0x00; 0x50] !! i = Some b →
           (CARTRIDGE_ROM + i < length sample_memory)%nat →
           mem' !! (CARTRIDGE_ROM + i)%nat = Some b)
      ∧ (∀ k, (k < length sample_memory)%nat →
           (k < CARTRIDGE_ROM ∨ CARTRIDGE_ROM + length [0xC3; 0x00; 0x50] ≤ k)%nat →
           mem' !! k = Some 0).
Proof.
  assert (is_uint8array [0xC3; 0x00; 0x50]) as Hbytes
    by (unfold is_uint8array; repeat constructor; lia).
  split; [reflexivity|]. split; [reflexivity|]. split; [exact Hbytes|].
  exact (clearMemory_then_loadCartridgeRom [0xC3; 0x00; 0x50] sample_memory None idle_core
           (fresh_world (Some idle_core) (Some sample_memory)) eq_refl eq_refl Hbytes).
Defined.

(** X3. Without a core, [loadCartridgeRom] ends in a [TypeError] after its
    loop: the image is in the memory, yet the flag [ROM] is not set. *)
Theorem loadCartridgeRom_without_core (gameBytes mem : list Z) bootRom (w : World) :
  wasmByteMemory w = Some mem → wasmInstance w = None →
  ∃ w', loadCartridgeRom gameBytes bootRom w = (Throw TypeError, w')
        ∧ wasmByteMemory w' = Some (rom_loaded gameBytes mem)
        ∧ loadedROM w' = loadedROM w
        ∧ trace w' = trace w.
Proof.
  intros Hmem Hinst.
  unfold loadCartridgeRom, bind, gets, modify, callExport. rewrite Hmem.
  world_simpl. rewrite Hinst.
  eexists. split; [reflexivity|]. by world_simpl.
Qed.

Lemma loadCartridgeRom_without_core_witness :
  wasmByteMemory (fresh_world None (Some sample_memory)) = Some sample_memory
  ∧ wasmInstance (fresh_world None (Some sample_memory)) = None
  ∧ ∃ w', loadCartridgeRom [0xC3; 0x00; 0x50] None (fresh_world None (Some sample_memory))
          = (Throw TypeError, w')
          ∧ wasmByteMemory w' = Some (rom_loaded [0xC3; 0x00; 0x50] sample_memory)
          ∧ loadedROM w' = loadedROM (fresh_world None (Some sample_memory))
          ∧ trace w' = trace (fresh_world None (Some sample_memory)).
Proof.
  split; [reflexivity|]. split; [reflexivity|].
  exact (loadCartridgeRom_without_core [0xC3; 0x00; 0x50] sample_memory None
           (fresh_world None (Some sample_memory)) eq_refl eq_refl).
Defined.

(** X4. With a memory and a core bound, [loadCartridgeRom] touches nothing
    but the window of the image: before the reset of the core, which it
    calls once, every byte below CartridgeRom or past the end of the image
    is as it was; it sets the flag [ROM], and leaves the flag [RAM], the
    store and [localStorage] alone. *)
Theorem loadCartridgeRom_frame (gameBytes mem : list Z) bootRom instance (w : World) :
  wasmByteMemory w = Some mem → wasmInstance w = Some instance →
  ∃ w' mem',
    loadCartridgeRom gameBytes bootRom w = (Normal tt, w')
    ∧ wasmByteMemory w' = Some (exports_initialize instance 0 mem')
    ∧ (∀ k, (k < CARTRIDGE_ROM ∨ CARTRIDGE_ROM + length gameBytes ≤ k)%nat →
         mem' !! k = mem !! k)
    ∧ loadedROM w' = true ∧ loadedRAM w' = loadedRAM w
    ∧ idb w' = idb w ∧ localStorage w' = localStorage w
    ∧ trace w' = trace w ++ [CallInitialize].
Proof.
  intros Hmem Hinst.
  rewrite (loadCartridgeRom_run gameBytes mem bootRom instance w Hmem Hinst).
  eexists _, (rom_loaded gameBytes mem). split; [reflexivity|]. world_simpl.
  split; [reflexivity|]. split; [|done].
  intros k Hk. by apply rom_loaded_outside.
Qed.

Lemma loadCartridgeRom_frame_witness :
  wasmByteMemory (fresh_world (Some idle_core) (Some sample_memory)) = Some sample_memory
  ∧ wasmInstance (fresh_world (Some idle_core) (Some sample_memory)) = Some idle_core
  ∧ ∃ w' mem',
      loadCartridgeRom [0xC3; 0x00; 0x50] None (fresh_world (Some idle_core) (Some sample_memory))
      = (Normal tt, w')
      ∧ wasmByteMemory w' = Some (exports_initialize idle_core 0 mem')
      ∧ (∀ k, (k < CARTRIDGE_ROM ∨ CARTRIDGE_ROM + length [0xC3; 0x00; 0x50] ≤ k)%nat →
           mem' !! k = sample_memory !! k)
      ∧ loadedROM w' = true
      ∧ loadedRAM w' = loadedRAM (fresh_world (Some idle_core) (Some sample_memory))
      ∧ idb w' = idb (fresh_world (Some idle_core) (Some sample_memory))
      ∧ localStorage w' = localStorage (fresh_world (Some idle_core) (Some sample_memory))
      ∧ trace w' = trace (fresh_world (Some idle_core) (Some sample_memory)) ++ [CallInitialize].
Proof.
  split; [reflexivity|]. split; [reflexivity|].
  exact (loadCartridgeRom_frame [0xC3; 0x00; 0x50] sample_memory None idle_core
           (fresh_world (Some idle_core) (Some sample_memory)) eq_refl eq_refl).
Defined.

(** ** Cartridge RAM in the store *)

(** The header only depends on the bytes of its window. *)
Lemma getCartridgeHeader_ext (mem mem' : list Z) :
  (∀ i, (i < 27)%nat →
        mem' !! (CARTRIDGE_ROM + Z.to_nat 0x0134 + i)%nat
        = mem !! (CARTRIDGE_ROM + Z.to_nat 0x0134 + i)%nat) →
  getCartridgeHeader (Some mem') = getCartridgeHeader (Some mem).
Proof.
  intros Hwin. rewrite !getCartridgeHeader_eq. apply (f_equal Some).
  apply list_eq. intros j. rewrite !list_lookup_fmap.
  destruct (decide (j < 27)%nat) as [Hj|Hj].
  - rewrite lookup_seq_lt by done. cbn [fmap option_fmap option_map Nat.add].
    by rewrite Hwin.
  - by rewrite lookup_seq_ge by lia.
Qed.

Lemma ram_loaded_length (ram mem : list Z) :
  length (ram_loaded ram mem) = length mem.
Proof.
  unfold ram_loaded, typedSet.
  apply (for_loop_fill_length (λ i, (CARTRIDGE_RAM + i)%nat) (λ i, ToUint8 (ram !! i))).
Qed.

Lemma ram_loaded_inside (ram mem : list Z) (i : nat) :
  (i < length ram)%nat → (CARTRIDGE_RAM + i < length mem)%nat →
  ram_loaded ram mem !! (CARTRIDGE_RAM + i)%nat = Some (ToUint8 (ram !! i)).
Proof.
  intros Hi Hlen. unfold ram_loaded, typedSet.
  apply (for_loop_fill_hit (λ i, (CARTRIDGE_RAM + i)%nat) (λ i, ToUint8 (ram !! i)));
    [intros j j'; lia|lia|done].
Qed.

Lemma ram_loaded_outside (ram mem : list Z) (k : nat) :
  (k < CARTRIDGE_RAM ∨ CARTRIDGE_RAM + length ram ≤ k)%nat →
  ram_loaded ram mem !! k = mem !! k.
Proof.
  intros Hk. unfold ram_loaded, typedSet.
  apply (for_loop_fill_other (λ i, (CARTRIDGE_RAM + i)%nat) (λ i, ToUint8 (ram !! i))).
  intros j Hj. lia.
Qed.

(** A RAM that ends before the header leaves the header as it is. *)
Lemma ram_loaded_header (ram mem : list Z) :
  (CARTRIDGE_RAM + length ram ≤ CARTRIDGE_ROM + Z.to_nat 0x0134)%nat →
  getCartridgeHeader (Some (ram_loaded ram mem)) = getCartridgeHeader (Some mem).
Proof.
  intros Hlen. apply getCartridgeHeader_ext. intros i Hi.
  apply ram_loaded_outside. lia.
Qed.

(** What [loadCartridgeRam] does when the store answers. *)
Lemma loadCartridgeRam_run (mem : list Z) (w : World) :
  wasmByteMemory w = Some mem → next_call_fails w = false →
  loadCartridgeRam w
  = (Normal (Some Fulfilled),
     match idb w !! getCartridgeHeader (Some mem) ≫= co_cartridgeRam with
     | None =>
         set_idbFaults (tail (idbFaults w)) (log (IdbGet (getCartridgeHeader (Some mem))) w)
     | Some ram =>
         set_loadedRAM true
           (set_wasmByteMemory (Some (ram_loaded ram mem))
              (set_idbFaults (tail (idbFaults w))
                 (log (IdbGet (getCartridgeHeader (Some mem))) w)))
     end).
Proof.
  intros Hmem Hok.
  unfold loadCartridgeRam, executor, try_catch, bind, gets, ret, modify, idbKeyval_get.
  rewrite Hmem, Hok.
  pose proof (getCartridgeHeader_eq mem) as Hh.
  destruct (getCartridgeHeader (Some mem)) as [h|] eqn:Hheader; [clear Hh|discriminate Hh].
  rewrite bool_decide_true by eauto. cbn [negb]. world_simpl.
  destruct (idb w !! Some h ≫= co_cartridgeRam) as [ram|]; [|reflexivity].
  world_simpl. rewrite Hmem. reflexivity.
Qed.

(** [saveCartridgeRam()] reads header and RAM from the memory. With no
    failure scheduled the record of the header receives what
    [getCartridgeRam] returned, [false] included, and the promise is
    rejected exactly when that was [false]. *)
Lemma saveCartridgeRam_from_memory (mem : list Z) (w : World) :
  wasmByteMemory w = Some mem → idbFaults w = [] →
  ∃ w1,
    saveCartridgeRam None None w
    = (Normal (Some (match getCartridgeRam (Some mem) with
                     | Some _ => Fulfilled
                     | None => Rejected (Rejection
                                 "Error parsing the cartridgeRam or cartridge header")
                     end)), w1)
    ∧ idb w1 = <[getCartridgeHeader (Some mem) :=
                   {| co_cartridgeRam := getCartridgeRam (Some mem);
                      co_saveStates :=
                        idb w !! getCartridgeHeader (Some mem) ≫= co_saveStates |}]> (idb w)
    ∧ idbFaults w1 = [] ∧ wasmByteMemory w1 = Some mem
    ∧ wasmInstance w1 = wasmInstance w ∧ loadedRAM w1 = loadedRAM w
    ∧ localStorage w1 = localStorage w
    ∧ trace w1 = trace w ++ [IdbGet (getCartridgeHeader (Some mem));
                             IdbSet (getCartridgeHeader (Some mem))].
Proof.
  intros Hmem Hfaults.
  unfold saveCartridgeRam, executor, try_catch, bind, gets, ret, idbKeyval_get,
    idbKeyval_set, next_call_fails.
  rewrite Hmem.
  rewrite (bool_decide_false (is_Some None)) by (by intros [? ?]).
  cbn [andb].
  pose proof (getCartridgeHeader_eq mem) as Hh.
  destruct (getCartridgeHeader (Some mem)) as [h|] eqn:Hheader; [clear Hh|discriminate Hh].
  rewrite (bool_decide_true (is_Some (Some h))) by eauto. cbn [negb orb].
  world_simpl. rewrite Hfaults. cbn [head tail default from_option id]. world_simpl.
  destruct (getCartridgeRam (Some mem)) as [ram|] eqn:Hram.
  - rewrite bool_decide_true by eauto. cbn [negb settle].
    eexists. split; [reflexivity|]. world_simpl.
    split; [by destruct (idb w !! Some h)|]. by rewrite <- app_assoc.
  - rewrite bool_decide_false by (by intros [? ?]). cbn [negb settle].
    eexists. split; [reflexivity|]. world_simpl.
    split; [by destruct (idb w !! Some h)|]. by rewrite <- app_assoc.
Qed.

(** X5. [loadCartridgeRam] when nothing can be loaded. With a memory bound:
    if the store fails the promise is rejected with that failure; if the
    store has no record for the header, or a record without cartridge RAM,
    the promise is fulfilled. In both cases the memory and the flag [RAM]
    are as before. *)
Theorem loadCartridgeRam_nothing_to_load (mem : list Z) (w : World) :
  wasmByteMemory w = Some mem →
  (next_call_fails w = true →
   ∃ w', loadCartridgeRam w = (Normal (Some (Rejected StoreUnavailable)), w')
         ∧ wasmByteMemory w' = Some mem ∧ loadedRAM w' = loadedRAM w)
  ∧ (next_call_fails w = false →
     idb w !! getCartridgeHeader (Some mem) ≫= co_cartridgeRam = None →
     ∃ w', loadCartridgeRam w = (Normal (Some Fulfilled), w')
           ∧ wasmByteMemory w' = Some mem ∧ loadedRAM w' = loadedRAM w).
Proof.
  intros Hmem. split.
  - intros Hfail.
    unfold loadCartridgeRam, executor, try_catch, bind, gets, ret, idbKeyval_get.
    rewrite Hmem, Hfail.
    pose proof (getCartridgeHeader_eq mem) as Hh.
    destruct (getCartridgeHeader (Some mem)) as [h|] eqn:Hheader; [clear Hh|discriminate Hh].
    rewrite bool_decide_true by eauto. cbn [negb settle].
    eexists. split; [reflexivity|]. by world_simpl.
  - intros Hok Hnone. rewrite (loadCartridgeRam_run mem w Hmem Hok), Hnone.
    eexists. split; [reflexivity|]. by world_simpl.
Qed.

Lemma loadCartridgeRam_nothing_to_load_witness :
  wasmByteMemory (fresh_world (Some idle_core) (Some sample_memory)) = Some sample_memory
  ∧ (next_call_fails (fresh_world (Some idle_core) (Some sample_memory)) = true →
     ∃ w', loadCartridgeRam (fresh_world (Some idle_core) (Some sample_memory))
           = (Normal (Some (Rejected StoreUnavailable)), w')
           ∧ wasmByteMemory w' = Some sample_memory
           ∧ loadedRAM w' = loadedRAM (fresh_world (Some idle_core) (Some sample_memory)))
  ∧ (next_call_fails (fresh_world (Some idle_core) (Some sample_memory)) = false →
     idb (fresh_world (Some idle_core) (Some sample_memory))
       !! getCartridgeHeader (Some sample_memory) ≫= co_cartridgeRam = None →
     ∃ w', loadCartridgeRam (fresh_world (Some idle_core) (Some sample_memory))
           = (Normal (Some Fulfilled), w')
           ∧ wasmByteMemory w' = Some sample_memory
           ∧ loadedRAM w' = loadedRAM (fresh_world (Some idle_core) (Some sample_memory))).
Proof.
  split; [reflexivity|].
  exact (loadCartridgeRam_nothing_to_load sample_memory
           (fresh_world (Some idle_core) (Some sample_memory)) eq_refl).
Defined.

(** X6. [loadCartridgeRam] with RAM stored for the header: the promise is
    fulfilled, the flag [RAM] is set, the stored bytes are at CartridgeRam
    (as far as the buffer goes) and every other byte of the memory is as it
    was. The store is not changed. *)
Theorem loadCartridgeRam_restores (mem ram : list Z) (w : World) :
  wasmByteMemory w = Some mem → next_call_fails w = false →
  idb w !! getCartridgeHeader (Some mem) ≫= co_cartridgeRam = Some ram →
  is_uint8array ram →
  ∃ w' mem',
    loadCartridgeRam w = (Normal (Some Fulfilled), w')
    ∧ wasmByteMemory w' = Some mem' ∧ loadedRAM w' = true
    ∧ length mem' = length mem
    ∧ (∀ i b, ram !! i = Some b → (CARTRIDGE_RAM + i < length mem)%nat →
         mem' !! (CARTRIDGE_RAM + i)%nat = Some b)
    ∧ (∀ k, (k < CARTRIDGE_RAM ∨ CARTRIDGE_RAM + length ram ≤ k)%nat →
         mem' !! k = mem !! k)
    ∧ idb w' = idb w.
Proof.
  intros Hmem Hok Hram Hbytes.
  rewrite (loadCartridgeRam_run mem w Hmem Hok), Hram.
  eexists _, (ram_loaded ram mem). split; [reflexivity|]. world_simpl.
  split; [reflexivity|]. split; [reflexivity|].
  split; [apply ram_loaded_length|]. split; [|split; [|reflexivity]].
  - intros i b Hb Hlen.
    rewrite ram_loaded_inside by (by (apply lookup_lt_Some in Hb) || done).
    rewrite Hb. f_equal. apply Z.mod_small.
    eapply (Forall_lookup_1 (λ b, 0 ≤ b < 256)); [exact Hbytes | exact Hb].
  - intros k Hk. by apply ram_loaded_outside.
Qed.

Lemma loadCartridgeRam_restores_witness :
  wasmByteMemory (world_with_record {| co_cartridgeRam := Some [1; 2; 3];
                                       co_saveStates := None |}) = Some sample_memory
  ∧ next_call_fails (world_with_record {| co_cartridgeRam := Some [1; 2; 3];
                                          co_saveStates := None |}) = false
  ∧ idb (world_with_record {| co_cartridgeRam := Some [1; 2; 3]; co_saveStates := None |})
      !! getCartridgeHeader (Some sample_memory) ≫= co_cartridgeRam = Some [1; 2; 3]
  ∧ is_uint8array [1; 2; 3]
  ∧ ∃ w' mem',
      loadCartridgeRam (world_with_record {| co_cartridgeRam := Some [1; 2; 3];
                                             co_saveStates := None |})
      = (Normal (Some Fulfilled), w')
      ∧ wasmByteMemory w' = Some mem' ∧ loadedRAM w' = true
      ∧ length mem' = length sample_memory
      ∧ (∀ i b, [1; 2; 3] !! i = Some b → (CARTRIDGE_RAM + i < length sample_memory)%nat →
           mem' !! (CARTRIDGE_RAM + i)%nat = Some b)
      ∧ (∀ k, (k < CARTRIDGE_RAM ∨ CARTRIDGE_RAM + length [1; 2; 3] ≤ k)%nat →
           mem' !! k = sample_memory !! k)
      ∧ idb w' = idb (world_with_record {| co_cartridgeRam := Some [1; 2; 3];
                                           co_saveStates := None |}).
Proof.
  assert (idb (world_with_record {| co_cartridgeRam := Some [1; 2; 3];
                                    co_saveStates := None |})
            !! getCartridgeHeader (Some sample_memory) ≫= co_cartridgeRam = Some [1; 2; 3])
    as Hram.
  { unfold world_with_record. world_simpl. by rewrite lookup_singleton_eq. }
  assert (is_uint8array [1; 2; 3]) as Hbytes
    by (unfold is_uint8array; repeat constructor; lia).
  split; [reflexivity|]. split; [reflexivity|]. split; [exact Hram|].
  split; [exact Hbytes|].
  exact (loadCartridgeRam_restores sample_memory [1; 2; 3]
           (world_with_record {| co_cartridgeRam := Some [1; 2; 3]; co_saveStates := None |})
           eq_refl eq_refl Hram Hbytes).
Defined.

(** X7. Round trip of the cartridge RAM through the store. With a cartridge
    that has RAM and no failure scheduled, [saveCartridgeRam()] followed,
    after the memory changed without changing the header, by
    [loadCartridgeRam()] puts back in the CartridgeRam region the bytes it
    held at the time of the save; nothing else of the later memory changes. *)
Theorem saveCartridgeRam_loadCartridgeRam_round_trip
    (mem mem2 : list Z) (ramSize : Z) (w : World) :
  wasmByteMemory w = Some mem → idbFaults w = [] → is_uint8array mem →
  resolveRamSize (mem !! (CARTRIDGE_ROM + Z.to_nat 0x0147)%nat) = Some ramSize →
  getCartridgeHeader (Some mem2) = getCartridgeHeader (Some mem) →
  ∃ w1 w2 mem',
    saveCartridgeRam None None w = (Normal (Some Fulfilled), w1)
    ∧ loadCartridgeRam (set_wasmByteMemory (Some mem2) w1) = (Normal (Some Fulfilled), w2)
    ∧ wasmByteMemory w2 = Some mem' ∧ loadedRAM w2 = true
    ∧ length mem' = length mem2
    ∧ (∀ k, (CARTRIDGE_RAM ≤ k < CARTRIDGE_RAM + Z.to_nat ramSize)%nat →
         (k < length mem)%nat → (k < length mem2)%nat → mem' !! k = mem !! k)
    ∧ (∀ k, (k < CARTRIDGE_RAM ∨ CARTRIDGE_RAM + Z.to_nat ramSize ≤ k)%nat →
         mem' !! k = mem2 !! k).
Proof.
  intros Hmem Hfaults Hbytes Hsize Hheader.
  destruct (saveCartridgeRam_from_memory mem w Hmem Hfaults)
    as (w1 & Hsave & Hidb & Hfaults1 & Hmem1 & _).
  pose proof (getCartridgeRam_eq mem) as Hram. rewrite Hsize in Hram.
  cbn [fmap option_fmap option_map] in Hram.
  set (ram := (λ i, ToUint8 (mem !! (CARTRIDGE_RAM + i)%nat)) <$> seq 0 (Z.to_nat ramSize))
    in Hram.
  assert (length ram = Z.to_nat ramSize) as Hlen
    by (unfold ram; by rewrite length_fmap, length_seq).
  rewrite Hram in Hsave, Hidb.
  assert (loadCartridgeRam (set_wasmByteMemory (Some mem2) w1)
          = (Normal (Some Fulfilled),
             set_loadedRAM true
               (set_wasmByteMemory (Some (ram_loaded ram mem2))
                  (set_idbFaults (tail (idbFaults (set_wasmByteMemory (Some mem2) w1)))
                     (log (IdbGet (getCartridgeHeader (Some mem2)))
                        (set_wasmByteMemory (Some mem2) w1)))))) as Hload.
  { rewrite (loadCartridgeRam_run mem2 (set_wasmByteMemory (Some mem2) w1) eq_refl)
      by (unfold next_call_fails; world_simpl; by rewrite Hfaults1).
    world_simpl. by rewrite Hheader, Hidb, lookup_insert_eq. }
  exists w1, (set_loadedRAM true
                (set_wasmByteMemory (Some (ram_loaded ram mem2))
                   (set_idbFaults (tail (idbFaults (set_wasmByteMemory (Some mem2) w1)))
                      (log (IdbGet (getCartridgeHeader (Some mem2)))
                         (set_wasmByteMemory (Some mem2) w1))))),
    (ram_loaded ram mem2).
  split; [exact Hsave|]. split; [exact Hload|].
  split; [reflexivity|]. split; [reflexivity|].
  split; [apply ram_loaded_length|]. split.
  - intros k Hk Hk1 Hk2.
    replace k with (CARTRIDGE_RAM + (k - CARTRIDGE_RAM))%nat at 1 by lia.
    rewrite ram_loaded_inside by lia.
    unfold ram. rewrite list_lookup_fmap, lookup_seq_lt by lia.
    cbn [fmap option_fmap option_map Nat.add].
    replace (CARTRIDGE_RAM + (k - CARTRIDGE_RAM))%nat with k by lia.
    destruct (lookup_lt_is_Some_2 mem k Hk1) as [b Hb]. rewrite Hb.
    f_equal. apply ToUint8_byte.
    eapply (Forall_lookup_1 (λ b, 0 ≤ b < 256)); [exact Hbytes | exact Hb].
  - intros k Hk. apply ram_loaded_outside. lia.
Qed.

Lemma saveCartridgeRam_loadCartridgeRam_round_trip_witness :
  wasmByteMemory (fresh_world (Some idle_core) (Some sample_memory)) = Some sample_memory
  ∧ idbFaults (fresh_world (Some idle_core) (Some sample_memory)) = []
  ∧ is_uint8array sample_memory
  ∧ resolveRamSize (sample_memory !! (CARTRIDGE_ROM + Z.to_nat 0x0147)%nat) = Some 0x8000
  ∧ getCartridgeHeader (Some played_memory) = getCartridgeHeader (Some sample_memory)
  ∧ ∃ w1 w2 mem',
      saveCartridgeRam None None (fresh_world (Some idle_core) (Some sample_memory))
      = (Normal (Some Fulfilled), w1)
      ∧ loadCartridgeRam (set_wasmByteMemory (Some played_memory) w1)
        = (Normal (Some Fulfilled), w2)
      ∧ wasmByteMemory w2 = Some mem' ∧ loadedRAM w2 = true
      ∧ length mem' = length played_memory
      ∧ (∀ k, (CARTRIDGE_RAM ≤ k < CARTRIDGE_RAM + Z.to_nat 0x8000)%nat →
           (k < length sample_memory)%nat → (k < length played_memory)%nat →
           mem' !! k = sample_memory !! k)
      ∧ (∀ k, (k < CARTRIDGE_RAM ∨ CARTRIDGE_RAM + Z.to_nat 0x8000 ≤ k)%nat →
           mem' !! k = played_memory !! k).
Proof.
  assert (resolveRamSize (sample_memory !! (CARTRIDGE_ROM + Z.to_nat 0x0147)%nat)
          = Some 0x8000) as Hsize by (vm_compute; reflexivity).
  assert (getCartridgeHeader (Some played_memory) = getCartridgeHeader (Some sample_memory))
    as Hheader by (vm_compute; reflexivity).
  split; [reflexivity|]. split; [reflexivity|]. split; [exact sample_memory_bytes|].
  split; [exact Hsize|]. split; [exact Hheader|].
  exact (saveCartridgeRam_loadCartridgeRam_round_trip sample_memory played_memory 0x8000
           (fresh_world (Some idle_core) (Some sample_memory))
           eq_refl eq_refl sample_memory_bytes Hsize Hheader).
Defined.

(** X8. [saveCartridgeRam()] for a cartridge without RAM: the promise is
    rejected with the parsing message, yet the executor goes on and the
    store receives a record for the header whose [cartridgeRam] is [false];
    the save states of the record are kept. *)
Theorem saveCartridgeRam_without_ram (mem : list Z) (w : World) :
  wasmByteMemory w = Some mem → idbFaults w = [] →
  getCartridgeRam (Some mem) = None →
  ∃ w1,
    saveCartridgeRam None None w
    = (Normal (Some (Rejected (Rejection
                       "Error parsing the cartridgeRam or cartridge header"))), w1)
    ∧ idb w1 !! getCartridgeHeader (Some mem)
      = Some {| co_cartridgeRam := None;
                co_saveStates := idb w !! getCartridgeHeader (Some mem) ≫= co_saveStates |}
    ∧ trace w1 = trace w ++ [IdbGet (getCartridgeHeader (Some mem));
                             IdbSet (getCartridgeHeader (Some mem))].
Proof.
  intros Hmem Hfaults Hram.
  destruct (saveCartridgeRam_from_memory mem w Hmem Hfaults)
    as (w1 & Hsave & Hidb & _ & _ & _ & _ & _ & Htrace).
  rewrite Hram in Hsave, Hidb.
  exists w1. split; [exact Hsave|]. split; [by rewrite Hidb, lookup_insert_eq|].
  exact Htrace.
Qed.

Lemma saveCartridgeRam_without_ram_witness :
  wasmByteMemory (fresh_world (Some idle_core) (Some blank_memory)) = Some blank_memory
  ∧ idbFaults (fresh_world (Some idle_core) (Some blank_memory)) = []
  ∧ getCartridgeRam (Some blank_memory) = None
  ∧ ∃ w1,
      saveCartridgeRam None None (fresh_world (Some idle_core) (Some blank_memory))
      = (Normal (Some (Rejected (Rejection
                         "Error parsing the cartridgeRam or cartridge header"))), w1)
      ∧ idb w1 !! getCartridgeHeader (Some blank_memory)
        = Some {| co_cartridgeRam := None;
                  co_saveStates :=
                    idb (fresh_world (Some idle_core) (Some blank_memory))
                      !! getCartridgeHeader (Some blank_memory) ≫= co_saveStates |}
      ∧ trace w1 = trace (fresh_world (Some idle_core) (Some blank_memory))
                   ++ [IdbGet (getCartridgeHeader (Some blank_memory));
                       IdbSet (getCartridgeHeader (Some blank_memory))].
Proof.
  assert (getCartridgeRam (Some blank_memory) = None) as Hram by (vm_compute; reflexivity).
  split; [reflexivity|]. split; [reflexivity|]. split; [exact Hram|].
  exact (saveCartridgeRam_without_ram blank_memory
           (fresh_world (Some idle_core) (Some blank_memory)) eq_refl eq_refl Hram).
Defined.

(** X9. [saveCartridgeRam(header, ram)] replaces: after two saves under one
    header, with no failure scheduled, the record holds the RAM of the
    second; its save states and the records of the other headers are as
    before the first. *)
Theorem saveCartridgeRam_overwrites (h r1 r2 : list Z) (w : World) :
  idbFaults w = [] →
  ∃ w1 w2,
    saveCartridgeRam (Some h) (Some r1) w = (Normal (Some Fulfilled), w1)
    ∧ saveCartridgeRam (Some h) (Some r2) w1 = (Normal (Some Fulfilled), w2)
    ∧ idb w2 !! Some h
      = Some {| co_cartridgeRam := Some r2;
                co_saveStates := idb w !! Some h ≫= co_saveStates |}
    ∧ (∀ k, k ≠ Some h → idb w2 !! k = idb w !! k).
Proof.
  intros Hfaults.
  destruct (saveCartridgeRam_ok h r1 w Hfaults) as (w1 & Hsave1 & Hidb1 & Hfaults1 & _).
  destruct (saveCartridgeRam_ok h r2 w1 Hfaults1) as (w2 & Hsave2 & Hidb2 & _).
  exists w1, w2. split; [exact Hsave1|]. split; [exact Hsave2|]. split.
  - by rewrite Hidb2, lookup_insert_eq, Hidb1, lookup_insert_eq.
  - intros k Hk. by rewrite Hidb2, lookup_insert_ne, Hidb1, lookup_insert_ne.
Qed.

Lemma saveCartridgeRam_overwrites_witness :
  idbFaults (fresh_world None None) = []
  ∧ ∃ w1 w2,
      saveCartridgeRam (Some [1]) (Some [2; 3]) (fresh_world None None)
      = (Normal (Some Fulfilled), w1)
      ∧ saveCartridgeRam (Some [1]) (Some [4]) w1 = (Normal (Some Fulfilled), w2)
      ∧ idb w2 !! Some [1]
        = Some {| co_cartridgeRam := Some [4];
                  co_saveStates := idb (fresh_world None None) !! Some [1] ≫= co_saveStates |}
      ∧ (∀ k, k ≠ Some [1] → idb w2 !! k = idb (fresh_world None None) !! k).
Proof.
  split; [reflexivity|].
  exact (saveCartridgeRam_overwrites [1] [2; 3] [4] (fresh_world None None) eq_refl).
Defined.

(** Loading the same RAM twice is loading it once. *)
Lemma ram_loaded_twice (ram mem : list Z) :
  ram_loaded ram (ram_loaded ram mem) = ram_loaded ram mem.
Proof.
  apply list_eq. intros k.
  destruct (decide (CARTRIDGE_RAM ≤ k < CARTRIDGE_RAM + length ram)%nat) as [Hin|Hout].
  - destruct (decide (k < length mem)%nat) as [Hk|Hk].
    + replace k with (CARTRIDGE_RAM + (k - CARTRIDGE_RAM))%nat by lia.
      rewrite !ram_loaded_inside; [done|lia|lia|lia|]. rewrite ram_loaded_length. lia.
    + rewrite !lookup_ge_None_2; [done| |]; rewrite ?ram_loaded_length; lia.
  - apply ram_loaded_outside. lia.
Qed.

(** X10. [loadCartridgeRam] is idempotent: with RAM stored for the header
    that ends before the header window, and no failure scheduled, a second
    call finds the same record and leaves the memory of the first. *)
Theorem loadCartridgeRam_idempotent (mem ram : list Z) (w : World) :
  wasmByteMemory w = Some mem → idbFaults w = [] →
  idb w !! getCartridgeHeader (Some mem) ≫= co_cartridgeRam = Some ram →
  (CARTRIDGE_RAM + length ram ≤ CARTRIDGE_ROM + Z.to_nat 0x0134)%nat →
  ∃ w1 w2,
    loadCartridgeRam w = (Normal (Some Fulfilled), w1)
    ∧ loadCartridgeRam w1 = (Normal (Some Fulfilled), w2)
    ∧ wasmByteMemory w2 = wasmByteMemory w1
    ∧ loadedRAM w2 = true.
Proof.
  intros Hmem Hfaults Hram Hlen.
  assert (next_call_fails w = false) as Hok
    by (unfold next_call_fails; by rewrite Hfaults).
  rewrite (loadCartridgeRam_run mem w Hmem Hok), Hram.
  eexists _, _. split; [reflexivity|].
  rewrite (loadCartridgeRam_run (ram_loaded ram mem))
    by (unfold next_call_fails; service_simpl; by rewrite ?Hfaults).
  service_simpl. rewrite ram_loaded_header by done. rewrite Hram.
  split; [reflexivity|]. service_simpl. by rewrite ram_loaded_twice.
Qed.

Lemma loadCartridgeRam_idempotent_witness :
  wasmByteMemory (world_with_record {| co_cartridgeRam := Some [1; 2; 3];
                                       co_saveStates := None |}) = Some sample_memory
  ∧ idbFaults (world_with_record {| co_cartridgeRam := Some [1; 2; 3];
                                    co_saveStates := None |}) = []
  ∧ idb (world_with_record {| co_cartridgeRam := Some [1; 2; 3]; co_saveStates := None |})
      !! getCartridgeHeader (Some sample_memory) ≫= co_cartridgeRam = Some [1; 2; 3]
  ∧ (CARTRIDGE_RAM + length [1; 2; 3] ≤ CARTRIDGE_ROM + Z.to_nat 0x0134)%nat
  ∧ ∃ w1 w2,
      loadCartridgeRam (world_with_record {| co_cartridgeRam := Some [1; 2; 3];
                                             co_saveStates := None |})
      = (Normal (Some Fulfilled), w1)
      ∧ loadCartridgeRam w1 = (Normal (Some Fulfilled), w2)
      ∧ wasmByteMemory w2 = wasmByteMemory w1
      ∧ loadedRAM w2 = true.
Proof.
  assert (idb (world_with_record {| co_cartridgeRam := Some [1; 2; 3];
                                    co_saveStates := None |})
            !! getCartridgeHeader (Some sample_memory) ≫= co_cartridgeRam = Some [1; 2; 3])
    as Hram.
  { unfold world_with_record. service_simpl. by rewrite lookup_singleton_eq. }
  assert (CARTRIDGE_RAM + length [1; 2; 3] ≤ CARTRIDGE_ROM + Z.to_nat 0x0134)%nat as Hlen.
  { unfold CARTRIDGE_RAM, CARTRIDGE_ROM. cbn [length]. lia. }
  split; [reflexivity|]. split; [reflexivity|]. split; [exact Hram|]. split; [exact Hlen|].
  exact (loadCartridgeRam_idempotent sample_memory [1; 2; 3]
           (world_with_record {| co_cartridgeRam := Some [1; 2; 3]; co_saveStates := None |})
           eq_refl eq_refl Hram Hlen).
Defined.

(** X11. [saveCartridgeRam(header, ram)] under any schedule of failures:
    the promise settles, either fulfilled or rejected with the failure of
    the store, and in the second case the store is as before. It never
    touches the memory or [localStorage]. *)
Theorem saveCartridgeRam_fails_cleanly (h ram : list Z) (w : World) :
  ∃ r w',
    saveCartridgeRam (Some h) (Some ram) w = (Normal (Some r), w')
    ∧ (r = Fulfilled ∨ (r = Rejected StoreUnavailable ∧ idb w' = idb w))
    ∧ wasmByteMemory w' = wasmByteMemory w
    ∧ localStorage w' = localStorage w.
Proof.
  unfold saveCartridgeRam, executor, try_catch, bind, gets, ret, idbKeyval_get, idbKeyval_set.
  rewrite !bool_decide_true by eauto. cbn [andb negb orb].
  destruct (next_call_fails w);
    [eexists _, _; split; [reflexivity|]; service_simpl; split; [right|]; done|].
  destruct (next_call_fails _);
    eexists _, _; (split; [reflexivity|]); service_simpl; (split; [|done]);
    [right|left]; done.
Qed.

(** ** Save states in the store *)

(** [saveState()] reads save state and header from the memory, after the
    core wrote its state there. *)
Lemma saveState_from_memory (mem : list Z) instance (w : World) :
  wasmByteMemory w = Some mem → wasmInstance w = Some instance → idbFaults w = [] →
  ∃ w1,
    saveState None None w = (Normal (Some Fulfilled), w1)
    ∧ idb w1
      = <[getCartridgeHeader (Some (exports_saveState instance mem)) :=
            {| co_cartridgeRam :=
                 idb w !! getCartridgeHeader (Some (exports_saveState instance mem))
                 ≫= co_cartridgeRam;
               co_saveStates :=
                 Some (default []
                         (idb w !! getCartridgeHeader (Some (exports_saveState instance mem))
                          ≫= co_saveStates)
                       ++ [{| d_wasmBoyMemory := regions (exports_saveState instance mem);
                              d_date := Some (now w); d_name := None;
                              d_isAuto := None |}]) |}]> (idb w)
    ∧ wasmByteMemory w1 = Some (exports_saveState instance mem)
    ∧ wasmInstance w1 = Some instance ∧ idbFaults w1 = []
    ∧ localStorage w1 = localStorage w.
Proof.
  intros Hmem Hinst Hfaults.
  unfold saveState, executor, try_catch, bind, gets, ret, callExport.
  rewrite Hinst. service_simpl. rewrite Hmem. cbn [fmap option_fmap option_map].
  rewrite getSaveState_run.
  unfold idbKeyval_get, idbKeyval_set, next_call_fails. service_simpl.
  rewrite Hfaults. cbn [head tail default from_option id]. service_simpl.
  pose proof (getCartridgeHeader_eq (exports_saveState instance mem)) as Hh.
  destruct (getCartridgeHeader (Some (exports_saveState instance mem))) as [h|] eqn:Hheader;
    [clear Hh|discriminate Hh].
  rewrite bool_decide_true by eauto. cbn [negb settle].
  eexists. split; [reflexivity|]. service_simpl.
  unfold snapshot. cbn [wasmBoyMemory date name isAuto]. rewrite lookup_total_insert_eq.
  split; [|done]. by destruct (idb w !! Some h).
Qed.

(** X12. [saveState(header, state)] appends: with a core bound and no
    failure scheduled, the save states of the record are the former ones, in
    their order, followed by the contents of the state passed in; the
    cartridge RAM of the record and the records of the other headers are
    untouched. *)
Theorem saveState_appends (h : list Z) (s : SaveState) instance (w : World) :
  idbFaults w = [] → wasmInstance w = Some instance →
  ∃ w' record,
    saveState (Some h) (Some s) w = (Normal (Some Fulfilled), w')
    ∧ idb w' !! Some h = Some record
    ∧ co_saveStates record
      = Some (default [] (idb w !! Some h ≫= co_saveStates) ++ [snapshot (heap w) s])
    ∧ co_cartridgeRam record = idb w !! Some h ≫= co_cartridgeRam
    ∧ (∀ k, k ≠ Some h → idb w' !! k = idb w !! k).
Proof.
  intros Hfaults Hinst.
  destruct (saveState_ok h s instance w Hfaults Hinst) as (w' & Hsave & Hidb).
  eexists w', _. split; [exact Hsave|]. rewrite Hidb.
  split; [apply lookup_insert_eq|]. split; [reflexivity|]. split; [reflexivity|].
  intros k Hk. by rewrite lookup_insert_ne.
Qed.

Lemma saveState_appends_witness :
  idbFaults (world_with_states auto_manual_auto) = []
  ∧ wasmInstance (world_with_states auto_manual_auto) = Some idle_core
  ∧ ∃ w' record,
      saveState (Some [1]) (Some WASMBOY_SAVE_STATE_SCHEMA) (world_with_states auto_manual_auto)
      = (Normal (Some Fulfilled), w')
      ∧ idb w' !! Some [1] = Some record
      ∧ co_saveStates record
        = Some (default [] (idb (world_with_states auto_manual_auto) !! Some [1]
                            ≫= co_saveStates)
                ++ [snapshot (heap (world_with_states auto_manual_auto))
                      WASMBOY_SAVE_STATE_SCHEMA])
      ∧ co_cartridgeRam record
        = idb (world_with_states auto_manual_auto) !! Some [1] ≫= co_cartridgeRam
      ∧ (∀ k, k ≠ Some [1] →
           idb w' !! k = idb (world_with_states auto_manual_auto) !! k).
Proof.
  split; [reflexivity|]. split; [reflexivity|].
  exact (saveState_appends [1] WASMBOY_SAVE_STATE_SCHEMA idle_core
           (world_with_states auto_manual_auto) eq_refl eq_refl).
Defined.


(** Decoding, into a memory of the same length, the regions read from a
    memory of bytes gives the bytes of that memory throughout the three
    regions. *)
Lemma loaded_byte_regions_into (m1 mem2 : list Z) (k : nat) :
  is_uint8array m1 → length mem2 = length m1 →
  (k < CARTRIDGE_RAM + length_of (getCartridgeRam (Some m1)))%nat →
  loaded_byte mem2 (regions m1) k = m1 !! k.
Proof.
  intros Hbytes Hlen Hk. destruct address_map as (H0 & H1 & H2 & H3 & H4).
  unfold loaded_byte, regions. cbn [wasmBoyInternalState gameBoyMemory cartridgeRam].
  destruct (decide (k < length mem2)%nat) as [Hin|Hout];
    [|symmetry; apply lookup_ge_None_2; lia].
  destruct (lookup_lt_is_Some_2 m1 k) as [b Hb]; [lia|].
  assert (0 ≤ b < 256) as Hbyte
    by (eapply (Forall_lookup_1 (λ b, 0 ≤ b < 256)); [exact Hbytes | exact Hb]).
  rewrite Hb.
  case_decide as Hram.
  { rewrite index_of_getCartridgeRam by lia.
    replace (CARTRIDGE_RAM + (k - CARTRIDGE_RAM))%nat with k by lia.
    rewrite Hb. by rewrite ToUint8_byte. }
  case_decide as Hgb.
  { rewrite list_lookup_fmap, lookup_seq_lt by lia.
    cbn [fmap option_fmap option_map Nat.add].
    replace (k - GAMEBOY_MEMORY.LOCATION + GAMEBOY_MEMORY.LOCATION)%nat with k by lia.
    rewrite Hb. by rewrite ToUint8_byte. }
  rewrite decide_True by lia.
  rewrite list_lookup_fmap, lookup_seq_lt by lia.
  cbn [fmap option_fmap option_map Nat.add].
  replace (k - WASMBOY_INTERNAL_STATE.LOCATION + WASMBOY_INTERNAL_STATE.LOCATION)%nat
    with k by lia.
  rewrite Hb. by rewrite ToUint8_byte.
Qed.

(** A list of save states that ends with a manual one: the default policy
    selects the last. *)
Lemma selected_last_manual (saveStates : list SaveStateData) (s : SaveStateData) :
  truthy_flag (d_isAuto s) = false →
  selected (saveStates ++ [s]) (length saveStates).
Proof.
  intros Hman. split; [rewrite length_app; simpl; lia|].
  left. exists s. split; [by rewrite lookup_app_r, Nat.sub_diag by lia|].
  split; [done|]. intros j s' Hj Hs'.
  apply lookup_lt_Some in Hs'. rewrite length_app in Hs'. simpl in Hs'. lia.
Qed.

(** X14. Round trip of a save state through the store. With a core bound
    and no failure scheduled, [saveState()] followed, after the memory
    changed without changing header or length, by [loadState()] puts back in
    InternalState, EmulatedMemory and CartridgeRam the bytes they held when
    the state was saved (after the core wrote its own state); the bytes past
    the cartridge RAM stay as the later memory has them. The core is then
    told to load its state. *)
Theorem saveState_loadState_round_trip (mem mem2 : list Z) instance (w : World) :
  wasmByteMemory w = Some mem → wasmInstance w = Some instance → idbFaults w = [] →
  is_uint8array (exports_saveState instance mem) →
  getCartridgeHeader (Some mem2) = getCartridgeHeader (Some (exports_saveState instance mem)) →
  length mem2 = length (exports_saveState instance mem) →
  ∃ w1 w2 mem',
    saveState None None w = (Normal (Some Fulfilled), w1)
    ∧ loadState None (set_wasmByteMemory (Some mem2) w1) = (Normal (Some Fulfilled), w2)
    ∧ wasmByteMemory w2 = Some (exports_loadState instance mem')
    ∧ length mem' = length mem2
    ∧ (∀ k, (k < CARTRIDGE_RAM
                 + length_of (getCartridgeRam (Some (exports_saveState instance mem))))%nat →
         mem' !! k = exports_saveState instance mem !! k)
    ∧ (∀ k, (CARTRIDGE_RAM
             + length_of (getCartridgeRam (Some (exports_saveState instance mem))) ≤ k)%nat →
         mem' !! k = mem2 !! k).
Proof.
  intros Hmem Hinst Hfaults Hbytes Hheader Hlen.
  destruct (saveState_from_memory mem instance w Hmem Hinst Hfaults)
    as (w1 & Hsave & Hidb & Hmem1 & Hinst1 & Hfaults1 & _).
  set (m1 := exports_saveState instance mem) in *.
  set (old := default [] (idb w !! getCartridgeHeader (Some m1) ≫= co_saveStates)) in *.
  set (s1 := {| d_wasmBoyMemory := regions m1; d_date := Some (now w); d_name := None;
                d_isAuto := None |}) in *.
  destruct (loadState_default_run None (set_wasmByteMemory (Some mem2) w1) mem2 instance
              {| co_cartridgeRam := idb w !! getCartridgeHeader (Some m1) ≫= co_cartridgeRam;
                 co_saveStates := Some (old ++ [s1]) |} (old ++ [s1]))
    as (k & s & mem' & w2 & Hs & Hsel & Hrun & Hload & Hmem2 & _).
  { reflexivity. }
  { reflexivity. }
  { exact Hinst1. }
  { unfold next_call_fails. service_simpl. by rewrite Hfaults1. }
  { service_simpl. by rewrite Hheader, Hidb, lookup_insert_eq. }
  { reflexivity. }
  { by destruct old. }
  rewrite (selected_unique _ _ _ Hsel (selected_last_manual old s1 eq_refl)) in Hs.
  rewrite lookup_app_r, Nat.sub_diag in Hs by lia. injection Hs as <-.
  destruct (loadSaveState_run mem2 s1) as (mem'' & Hrun' & Hlen' & Hlookup).
  rewrite Hrun in Hrun'. injection Hrun' as <-.
  exists w1, w2, mem'. split; [exact Hsave|]. split; [exact Hload|].
  split; [exact Hmem2|]. split; [exact Hlen'|]. split.
  - intros j Hj. rewrite Hlookup. by apply loaded_byte_regions_into.
  - intros j Hj. rewrite Hlookup. by apply loaded_byte_beyond.
Qed.

Lemma saveState_loadState_round_trip_witness :
  wasmByteMemory (fresh_world (Some idle_core) (Some sample_memory)) = Some sample_memory
  ∧ wasmInstance (fresh_world (Some idle_core) (Some sample_memory)) = Some idle_core
  ∧ idbFaults (fresh_world (Some idle_core) (Some sample_memory)) = []
  ∧ is_uint8array (exports_saveState idle_core sample_memory)
  ∧ getCartridgeHeader (Some played_memory)
    = getCartridgeHeader (Some (exports_saveState idle_core sample_memory))
  ∧ length played_memory = length (exports_saveState idle_core sample_memory)
  ∧ ∃ w1 w2 mem',
      saveState None None (fresh_world (Some idle_core) (Some sample_memory))
      = (Normal (Some Fulfilled), w1)
      ∧ loadState None (set_wasmByteMemory (Some played_memory) w1)
        = (Normal (Some Fulfilled), w2)
      ∧ wasmByteMemory w2 = Some (exports_loadState idle_core mem')
      ∧ length mem' = length played_memory
      ∧ (∀ k, (k < CARTRIDGE_RAM
                   + length_of (getCartridgeRam
                                  (Some (exports_saveState idle_core sample_memory))))%nat →
           mem' !! k = exports_saveState idle_core sample_memory !! k)
      ∧ (∀ k, (CARTRIDGE_RAM
               + length_of (getCartridgeRam
                              (Some (exports_saveState idle_core sample_memory))) ≤ k)%nat →
           mem' !! k = played_memory !! k).
Proof.
  assert (getCartridgeHeader (Some played_memory)
          = getCartridgeHeader (Some (exports_saveState idle_core sample_memory))) as Hheader
    by (vm_compute; reflexivity).
  assert (length played_memory = length (exports_saveState idle_core sample_memory)) as Hlen
    by (change (exports_saveState idle_core sample_memory) with sample_memory;
        unfold played_memory; apply length_insert).
  split; [reflexivity|]. split; [reflexivity|]. split; [reflexivity|].
  split; [exact sample_memory_bytes|]. split; [exact Hheader|]. split; [exact Hlen|].
  exact (saveState_loadState_round_trip sample_memory played_memory idle_core
           (fresh_world (Some idle_core) (Some sample_memory))
           eq_refl eq_refl eq_refl sample_memory_bytes Hheader Hlen).
Defined.

(** Once the store answered with a record that has save states,
    [loadState] is its callback. *)
Lemma loadState_with_states (index : option Z) (mem : list Z) (w : World)
    (saveStates : list SaveStateData) :
  wasmByteMemory w = Some mem → next_call_fails w = false →
  idb w !! getCartridgeHeader (Some mem) ≫= co_saveStates = Some saveStates →
  loadState index w
  = loadState_callback index saveStates None
      (set_idbFaults (tail (idbFaults w)) (log (IdbGet (getCartridgeHeader (Some mem))) w)).
Proof.
  intros Hmem Hok Hstates.
  unfold loadState, executor, bind, gets, idbKeyval_get.
  unfold try_catch at 1. rewrite Hmem, Hok.
  pose proof (getCartridgeHeader_eq mem) as Hh.
  destruct (getCartridgeHeader (Some mem)) as [h|] eqn:Hheader; [clear Hh|discriminate Hh].
  rewrite bool_decide_true by eauto. cbn [negb]. service_simpl. rewrite Hstates.
  unfold loadState_callback, try_catch.
  match goal with |- context [bind ?m ?k ?W] => destruct (bind m k W) as [[r|e] w'] end;
    reflexivity.
Qed.

(** X15. [loadState] when there is nothing to load. With a memory bound:
    a failure of the store rejects with that failure; a store without a
    record for the header, or with a record without save states, rejects
    with the message of the code; a record whose [saveStates] is the empty
    array rejects with a [TypeError], whatever the index. In all three cases
    the memory is as before and the core is not called. *)
Theorem loadState_rejections (index : option Z) (mem : list Z) (w : World) :
  wasmByteMemory w = Some mem →
  (next_call_fails w = true →
   ∃ w', loadState index w = (Normal (Some (Rejected StoreUnavailable)), w')
         ∧ wasmByteMemory w' = Some mem
         ∧ trace w' = trace w ++ [IdbGet (getCartridgeHeader (Some mem))])
  ∧ (next_call_fails w = false →
     idb w !! getCartridgeHeader (Some mem) ≫= co_saveStates = None →
     ∃ w', loadState index w
           = (Normal (Some (Rejected (Rejection
                              "No Cartridge Object or saveStates array found"))), w')
           ∧ wasmByteMemory w' = Some mem
           ∧ trace w' = trace w ++ [IdbGet (getCartridgeHeader (Some mem))])
  ∧ (next_call_fails w = false →
     idb w !! getCartridgeHeader (Some mem) ≫= co_saveStates = Some [] →
     ∃ w', loadState index w = (Normal (Some (Rejected TypeError)), w')
           ∧ wasmByteMemory w' = Some mem
           ∧ trace w' = trace w ++ [IdbGet (getCartridgeHeader (Some mem))]).
Proof.
  intros Hmem. split; [|split].
  - intros Hfail.
    unfold loadState, executor, try_catch, bind, gets, ret, idbKeyval_get.
    rewrite Hmem, Hfail.
    pose proof (getCartridgeHeader_eq mem) as Hh.
    destruct (getCartridgeHeader (Some mem)) as [h|] eqn:Hheader; [clear Hh|discriminate Hh].
    rewrite bool_decide_true by eauto. cbn [negb settle].
    eexists. split; [reflexivity|]. by service_simpl.
  - intros Hok Hnone.
    unfold loadState, executor, try_catch, bind, gets, ret, idbKeyval_get.
    rewrite Hmem, Hok.
    pose proof (getCartridgeHeader_eq mem) as Hh.
    destruct (getCartridgeHeader (Some mem)) as [h|] eqn:Hheader; [clear Hh|discriminate Hh].
    rewrite bool_decide_true by eauto. cbn [negb settle]. service_simpl. rewrite Hnone.
    eexists. split; [reflexivity|]. by service_simpl.
  - intros Hok Hempty. rewrite (loadState_with_states index mem w [] Hmem Hok Hempty).
    unfold loadState_callback, try_catch, bind, gets, ret, throw.
    assert (index ≫= lookupZ (@nil SaveStateData) = None) as Hnone.
    { destruct index as [i|]; [|done]. unfold lookupZ. cbn [mbind option_bind].
      by destruct (i <? 0). }
    destruct (truthy index) eqn:Htruthy; cbn [negb].
    + service_simpl. rewrite Hmem, Hnone. cbn [loadSaveState settle].
      eexists. split; [reflexivity|]. by service_simpl.
    + change (defaultSaveStateIndex []) with (Some (@Normal Z (-1))).
      service_simpl. rewrite Hmem. cbn [mbind option_bind].
      change (lookupZ (@nil SaveStateData) (-1)) with (@None SaveStateData).
      cbn [loadSaveState settle].
      eexists. split; [reflexivity|]. by service_simpl.
Qed.

Lemma loadState_rejections_witness :
  wasmByteMemory (world_with_states []) = Some sample_memory
  ∧ (next_call_fails (world_with_states []) = true →
     ∃ w', loadState None (world_with_states [])
           = (Normal (Some (Rejected StoreUnavailable)), w')
           ∧ wasmByteMemory w' = Some sample_memory
           ∧ trace w' = trace (world_with_states [])
                        ++ [IdbGet (getCartridgeHeader (Some sample_memory))])
  ∧ (next_call_fails (world_with_states []) = false →
     idb (world_with_states []) !! getCartridgeHeader (Some sample_memory)
       ≫= co_saveStates = None →
     ∃ w', loadState None (world_with_states [])
           = (Normal (Some (Rejected (Rejection
                              "No Cartridge Object or saveStates array found"))), w')
           ∧ wasmByteMemory w' = Some sample_memory
           ∧ trace w' = trace (world_with_states [])
                        ++ [IdbGet (getCartridgeHeader (Some sample_memory))])
  ∧ (next_call_fails (world_with_states []) = false →
     idb (world_with_states []) !! getCartridgeHeader (Some sample_memory)
       ≫= co_saveStates = Some [] →
     ∃ w', loadState None (world_with_states [])
           = (Normal (Some (Rejected TypeError)), w')
           ∧ wasmByteMemory w' = Some sample_memory
           ∧ trace w' = trace (world_with_states [])
                        ++ [IdbGet (getCartridgeHeader (Some sample_memory))]).
Proof.
  split; [reflexivity|].
  exact (loadState_rejections None sample_memory (world_with_states []) eq_refl).
Defined.

(** X16. [loadState(i)] with an index other than 0. With a memory and a
    core bound and the store answering with save states: if [saveStates[i]]
    exists it is the entry decoded, automatic or not, and the promise is
    fulfilled after the core was told to load its state; if it does not
    exist (index negative or past the end) the promise is rejected with a
    [TypeError] and the memory is as before. *)
Theorem loadState_explicit_index (i : Z) (mem : list Z) instance (w : World)
    (saveStates : list SaveStateData) :
  wasmByteMemory w = Some mem → wasmInstance w = Some instance →
  next_call_fails w = false →
  idb w !! getCartridgeHeader (Some mem) ≫= co_saveStates = Some saveStates →
  i ≠ 0 →
  (∀ s, lookupZ saveStates i = Some s →
     ∃ mem' w',
       loadSaveState (Some mem) (Some s) = Normal (true, mem')
       ∧ loadState (Some i) w = (Normal (Some Fulfilled), w')
       ∧ wasmByteMemory w' = Some (exports_loadState instance mem'))
  ∧ (lookupZ saveStates i = None →
     ∃ w', loadState (Some i) w = (Normal (Some (Rejected TypeError)), w')
           ∧ wasmByteMemory w' = Some mem).
Proof.
  intros Hmem Hinst Hok Hstates Hi.
  rewrite (loadState_with_states (Some i) mem w saveStates Hmem Hok Hstates).
  unfold loadState_callback, try_catch, bind, gets, ret, throw, modify, callExport.
  assert (truthy (Some i) = true) as -> by (by apply negb_true_iff, Z.eqb_neq).
  cbn [negb]. service_simpl. rewrite Hmem. cbn [mbind option_bind].
  split.
  - intros s Hs. rewrite Hs.
    destruct (loadSaveState_run mem s) as (mem' & Hrun & _).
    rewrite Hrun. service_simpl. rewrite Hinst. cbn [fmap option_fmap option_map settle].
    eexists mem', _. split; [reflexivity|]. split; [reflexivity|]. by service_simpl.
  - intros Hnone. rewrite Hnone. cbn [loadSaveState settle].
    eexists. split; [reflexivity|]. by service_simpl.
Qed.

Lemma loadState_explicit_index_witness :
  wasmByteMemory (world_with_states auto_manual_auto) = Some sample_memory
  ∧ wasmInstance (world_with_states auto_manual_auto) = Some idle_core
  ∧ next_call_fails (world_with_states auto_manual_auto) = false
  ∧ idb (world_with_states auto_manual_auto) !! getCartridgeHeader (Some sample_memory)
      ≫= co_saveStates = Some auto_manual_auto
  ∧ 2 ≠ 0
  ∧ (∀ s, lookupZ auto_manual_auto 2 = Some s →
       ∃ mem' w',
         loadSaveState (Some sample_memory) (Some s) = Normal (true, mem')
         ∧ loadState (Some 2) (world_with_states auto_manual_auto)
           = (Normal (Some Fulfilled), w')
         ∧ wasmByteMemory w' = Some (exports_loadState idle_core mem'))
  ∧ (lookupZ auto_manual_auto 2 = None →
     ∃ w', loadState (Some 2) (world_with_states auto_manual_auto)
           = (Normal (Some (Rejected TypeError)), w')
           ∧ wasmByteMemory w' = Some sample_memory).
Proof.
  assert (idb (world_with_states auto_manual_auto) !! getCartridgeHeader (Some sample_memory)
            ≫= co_saveStates = Some auto_manual_auto) as Hstates.
  { unfold world_with_states. service_simpl. by rewrite lookup_singleton_eq. }
  assert (2 ≠ 0) as Hi by lia.
  split; [reflexivity|]. split; [reflexivity|]. split; [reflexivity|].
  split; [exact Hstates|]. split; [exact Hi|].
  exact (loadState_explicit_index 2 sample_memory idle_core
           (world_with_states auto_manual_auto) auto_manual_auto
           eq_refl eq_refl eq_refl Hstates Hi).
Defined.

(** ** Start-up and teardown *)

(** X17. [initialize] with nothing pending in [localStorage]: it binds the
    core and the memory, installs the listener, reads the entry and returns
    a fulfilled promise, without any call to the store; the store and
    [localStorage] are as before. *)
Theorem initialize_nothing_pending (instance : option WasmInstance)
    (memory : option (list Z)) (includeBootRom : bool) (w : World) :
  localStorage w !! WASMBOY_UNLOAD_STORAGE = None →
  ∃ w', initialize instance memory includeBootRom w = (Normal (NothingPending Fulfilled), w')
        ∧ wasmInstance w' = instance ∧ wasmByteMemory w' = memory
        ∧ idb w' = idb w ∧ localStorage w' = localStorage w
        ∧ trace w' = trace w ++ [AddEventListener "beforeunload";
                                 GetItem WASMBOY_UNLOAD_STORAGE].
Proof.
  intros Hnone. unfold initialize, bind, modify, gets, ret. service_simpl. rewrite Hnone.
  eexists. split; [reflexivity|]. service_simpl. by rewrite <- app_assoc.
Qed.

Lemma initialize_nothing_pending_witness :
  localStorage (fresh_world None None) !! WASMBOY_UNLOAD_STORAGE = None
  ∧ ∃ w', initialize (Some idle_core) (Some sample_memory) false (fresh_world None None)
          = (Normal (NothingPending Fulfilled), w')
          ∧ wasmInstance w' = Some idle_core ∧ wasmByteMemory w' = Some sample_memory
          ∧ idb w' = idb (fresh_world None None)
          ∧ localStorage w' = localStorage (fresh_world None None)
          ∧ trace w' = trace (fresh_world None None)
                       ++ [AddEventListener "beforeunload"; GetItem WASMBOY_UNLOAD_STORAGE].
Proof.
  split; [reflexivity|].
  exact (initialize_nothing_pending (Some idle_core) (Some sample_memory) false
           (fresh_world None None) eq_refl).
Defined.

(** The listener in full: what it writes, and what it leaves alone. *)
Lemma beforeunload_effect (mem : list Z) (w : World) :
  wasmByteMemory w = Some mem →
  ∃ w', beforeunload w = (Normal tt, w')
        ∧ localStorage w'
          = <[WASMBOY_UNLOAD_STORAGE := unload_document mem (now w)]> (localStorage w)
        ∧ idb w' = idb w ∧ wasmByteMemory w' = Some mem
        ∧ trace w' = trace w ++ [SetItem WASMBOY_UNLOAD_STORAGE].
Proof.
  intros Hmem. unfold beforeunload, bind, gets. rewrite Hmem, getSaveState_run.
  unfold untype_properties, bind, gets, store_wasmBoyInternalState, store_gameBoyMemory,
    store_cartridgeRam, modify.
  service_simpl. cbn [wasmBoyMemory date name isAuto].
  rewrite !lookup_total_insert_eq.
  eexists. split; [reflexivity|]. service_simpl.
  unfold snapshot. cbn [wasmBoyMemory date name isAuto].
  rewrite !lookup_total_insert_eq.
  split; [reflexivity|]. done.
Qed.

(** X18. The [beforeunload] listener. With a memory bound it puts under
    [WASMBOY_UNLOAD_STORAGE], in place of whatever was there, the header, the
    cartridge RAM and a save state of the memory marked automatic; it does
    so with one [setItem] and no call to the store, and leaves the memory,
    the store and the other entries of [localStorage] as they are. Without a
    memory it ends in a [TypeError] and writes nothing. *)
Theorem beforeunload_writes_snapshot (w : World) :
  (∀ mem, wasmByteMemory w = Some mem →
     ∃ w' d, beforeunload w = (Normal tt, w')
             ∧ localStorage w' !! WASMBOY_UNLOAD_STORAGE
               = Some {| us_header := Array_slice (getCartridgeHeader (Some mem));
                         us_cartridgeRam := Array_slice (getCartridgeRam (Some mem));
                         us_saveState := Some d |}
             ∧ d_isAuto d = Some true ∧ d_date d = Some (now w)
             ∧ d_wasmBoyMemory d = untype (regions mem)
             ∧ (∀ key, key ≠ WASMBOY_UNLOAD_STORAGE →
                  localStorage w' !! key = localStorage w !! key)
             ∧ idb w' = idb w ∧ wasmByteMemory w' = Some mem
             ∧ trace w' = trace w ++ [SetItem WASMBOY_UNLOAD_STORAGE])
  ∧ (wasmByteMemory w = None → beforeunload w = (Throw TypeError, w)).
Proof.
  split.
  - intros mem Hmem.
    destruct (beforeunload_effect mem w Hmem) as (w' & Hrun & Hls & Hidb & Hmem' & Htrace).
    eexists w', _. split; [exact Hrun|]. rewrite Hls.
    split; [apply lookup_insert_eq|].
    repeat (split; [done|]).
    split; [intros key Hkey; by rewrite lookup_insert_ne|done].
  - intros Hnone. unfold beforeunload, bind, gets. rewrite Hnone. reflexivity.
Qed.

(** Typed arrays made from bytes hold the same numbers. *)
Lemma Uint8Array_from_bytes (l : list Z) : is_uint8array l → Uint8Array_from l = l.
Proof.
  intros Hl. unfold Uint8Array_from. apply list_eq. intros i.
  rewrite list_lookup_fmap. destruct (l !! i) as [b|] eqn:Hb; [|done].
  cbn [fmap option_fmap option_map ToUint8]. f_equal. apply Z.mod_small.
  eapply (Forall_lookup_1 (λ b, 0 ≤ b < 256)); [exact Hl | exact Hb].
Qed.

Lemma ToUint8_range (v : option Z) : 0 ≤ ToUint8 v < 256.
Proof. destruct v as [z|]; cbn [ToUint8]; [apply Z.mod_pos_bound|]; lia. Qed.

Lemma read_bytes_uint8 (f : nat → option Z) (n : nat) :
  is_uint8array ((λ i, ToUint8 (f i)) <$> seq 0 n).
Proof.
  apply Forall_fmap, Forall_forall. intros i _. apply ToUint8_range.
Qed.

(** What the readers return is made of bytes. *)
Lemma getCartridgeHeader_bytes (mem : list Z) :
  is_uint8array (Array_slice (getCartridgeHeader (Some mem))).
Proof.
  rewrite getCartridgeHeader_eq.
  apply (read_bytes_uint8 (λ i, mem !! (CARTRIDGE_ROM + Z.to_nat 0x0134 + i)%nat)).
Qed.

Lemma getCartridgeRam_bytes (mem : list Z) :
  is_uint8array (Array_slice (getCartridgeRam (Some mem))).
Proof.
  rewrite getCartridgeRam_eq. destruct (resolveRamSize _) as [n|]; [|by constructor].
  apply (read_bytes_uint8 (λ i, mem !! (CARTRIDGE_RAM + i)%nat)).
Qed.

(** The save state of a snapshot, once parsed and typed again: the regions
    of the memory, with an empty array for the RAM of a cartridge that has
    none. *)
Lemma retype_untype_regions (mem : list Z) :
  retype (untype (regions mem))
  = {| wasmBoyInternalState := wasmBoyInternalState (regions mem);
       gameBoyMemory := gameBoyMemory (regions mem);
       cartridgeRam := Some (Array_slice (getCartridgeRam (Some mem))) |}.
Proof.
  unfold retype, untype. cbn [wasmBoyInternalState gameBoyMemory cartridgeRam].
  f_equal.
  - apply Uint8Array_from_bytes.
    apply (read_bytes_uint8 (λ i, mem !! (i + WASMBOY_INTERNAL_STATE.LOCATION)%nat)).
  - apply Uint8Array_from_bytes.
    apply (read_bytes_uint8 (λ i, mem !! (i + GAMEBOY_MEMORY.LOCATION)%nat)).
  - f_equal. apply Uint8Array_from_bytes, getCartridgeRam_bytes.
Qed.

(** [initialize] with a snapshot pending that holds a save state, a core
    bound and no failure scheduled: both steps of the replay fulfil. *)
Lemma initialize_replay_ok (core : WasmInstance) (memory : option (list Z))
    (includeBootRom : bool) (w : World) (doc : UnloadStorageObject) (d : SaveStateData) :
  localStorage w !! WASMBOY_UNLOAD_STORAGE = Some doc → us_saveState doc = Some d →
  idbFaults w = [] →
  ∃ w',
    initialize (Some core) memory includeBootRom w
    = (Normal (Replayed (Some Fulfilled) (Some (Some Fulfilled))), w')
    ∧ localStorage w' = delete WASMBOY_UNLOAD_STORAGE (localStorage w)
    ∧ idb w' !! Some (Uint8Array_from (us_header doc))
      = Some {| co_cartridgeRam := Some (Uint8Array_from (us_cartridgeRam doc));
                co_saveStates :=
                  Some (default [] (idb w !! Some (Uint8Array_from (us_header doc))
                                    ≫= co_saveStates)
                        ++ [{| d_wasmBoyMemory := retype (d_wasmBoyMemory d);
                               d_date := d_date d; d_name := d_name d;
                               d_isAuto := d_isAuto d |}]) |}
    ∧ (∀ k, k ≠ Some (Uint8Array_from (us_header doc)) → idb w' !! k = idb w !! k)
    ∧ wasmByteMemory w' = exports_saveState core <$> memory.
Proof.
  intros Hdoc Hd Hfaults.
  unfold initialize, bind, modify, gets, ret, alloc. service_simpl. rewrite Hdoc, Hd.
  service_simpl.
  match goal with |- context [saveCartridgeRam ?a ?b ?W] =>
    destruct (saveCartridgeRam_ok (Uint8Array_from (us_header doc))
                (Uint8Array_from (us_cartridgeRam doc)) W Hfaults)
      as (w1 & Hsave & Hidb1 & Hfaults1 & Hheap1 & Hinst1 & Hmem1)
  end.
  rewrite Hsave.
  match goal with |- context [saveState ?a (Some ?s) w1] =>
    destruct (saveState_ok (Uint8Array_from (us_header doc)) s core w1 Hfaults1 Hinst1)
      as (w2 & Hstate & Hidb2);
    pose proof (saveState_frame (Uint8Array_from (us_header doc)) (Some s) w1)
      as (r' & w2' & Hstate' & Hls2 & _)
  end.
  rewrite Hstate in Hstate'. injection Hstate' as <- <-.
  pose proof (saveCartridgeRam_frame (Uint8Array_from (us_header doc))
                (Uint8Array_from (us_cartridgeRam doc)))
    as Hframe.
  match type of Hsave with saveCartridgeRam _ _ ?W = _ =>
    destruct (Hframe W) as (r1 & w1' & Hsave' & Hls1 & _)
  end.
  rewrite Hsave in Hsave'. injection Hsave' as <- <-.
  rewrite Hstate. exists w2. split; [reflexivity|].
  split; [by rewrite Hls2, Hls1|].
  split.
  { rewrite Hidb2, lookup_insert_eq, Hidb1, lookup_insert_eq. service_simpl.
    unfold snapshot. cbn [wasmBoyMemory date name isAuto].
    rewrite Hheap1. service_simpl. by rewrite lookup_total_insert_eq. }
  split.
  { intros k Hk. by rewrite Hidb2, lookup_insert_ne, Hidb1, lookup_insert_ne. }
  revert Hstate.
  unfold saveState, executor, try_catch, bind, gets, ret, callExport, idbKeyval_get,
    idbKeyval_set, next_call_fails.
  rewrite Hinst1. service_simpl. rewrite Hfaults1, Hmem1.
  cbn [head tail default from_option id]. service_simpl.
  intros [= <-]. by service_simpl.
Qed.

(** X19. Crash recovery, end to end. Let the listener run over a memory,
    and let a later session start from the [localStorage] it left, with a
    core and no failure of the store. Then [initialize] replays both steps
    with success, the entry is gone from [localStorage], and the store holds,
    under the very header that [getCartridgeHeader] gives for the memory of
    the crash, the cartridge RAM of that memory and, appended to the save
    states, an automatic save state with its regions and the date of the
    crash. *)
Theorem crash_recovery_round_trip (mem : list Z) (w w0 : World) (core : WasmInstance)
    (memory : option (list Z)) (includeBootRom : bool) :
  wasmByteMemory w = Some mem →
  localStorage w0 = localStorage (beforeunload w).2 →
  idbFaults w0 = [] →
  ∃ w2 record s,
    initialize (Some core) memory includeBootRom w0
    = (Normal (Replayed (Some Fulfilled) (Some (Some Fulfilled))), w2)
    ∧ localStorage w2 !! WASMBOY_UNLOAD_STORAGE = None
    ∧ idb w2 !! getCartridgeHeader (Some mem) = Some record
    ∧ co_cartridgeRam record = Some (Array_slice (getCartridgeRam (Some mem)))
    ∧ co_saveStates record
      = Some (default [] (idb w0 !! getCartridgeHeader (Some mem) ≫= co_saveStates) ++ [s])
    ∧ d_isAuto s = Some true ∧ d_date s = Some (now w)
    ∧ d_wasmBoyMemory s
      = {| wasmBoyInternalState := wasmBoyInternalState (regions mem);
           gameBoyMemory := gameBoyMemory (regions mem);
           cartridgeRam := Some (Array_slice (getCartridgeRam (Some mem))) |}.
Proof.
  intros Hmem Hls Hfaults.
  destruct (beforeunload_effect mem w Hmem) as (w' & Hrun & Hls' & _).
  rewrite Hrun in Hls. cbn [snd] in Hls. rewrite Hls' in Hls.
  assert (localStorage w0 !! WASMBOY_UNLOAD_STORAGE = Some (unload_document mem (now w)))
    as Hdoc by (by rewrite Hls, lookup_insert_eq).
  destruct (initialize_replay_ok core memory includeBootRom w0
              (unload_document mem (now w))
              {| d_wasmBoyMemory := untype (regions mem); d_date := Some (now w);
                 d_name := None; d_isAuto := Some true |} Hdoc eq_refl Hfaults)
    as (w2 & Hinit & Hls2 & Hidb & _).
  assert (Some (Uint8Array_from (us_header (unload_document mem (now w))))
          = getCartridgeHeader (Some mem)) as Hkey.
  { cbn [us_header unload_document].
    rewrite Uint8Array_from_bytes by apply getCartridgeHeader_bytes.
    by rewrite getCartridgeHeader_eq. }
  rewrite Hkey in Hidb.
  eexists w2, _, _. split; [exact Hinit|].
  split; [rewrite Hls2; apply lookup_delete_eq|].
  split; [exact Hidb|]. cbn [co_cartridgeRam co_saveStates us_cartridgeRam unload_document].
  split; [by rewrite Uint8Array_from_bytes by apply getCartridgeRam_bytes|].
  split; [reflexivity|]. cbn [d_isAuto d_date d_wasmBoyMemory].
  split; [reflexivity|]. split; [reflexivity|]. apply retype_untype_regions.
Qed.

Lemma crash_recovery_round_trip_witness :
  wasmByteMemory (fresh_world (Some idle_core) (Some sample_memory)) = Some sample_memory
  ∧ localStorage (pending_world [])
    = localStorage (beforeunload (fresh_world (Some idle_core) (Some sample_memory))).2
  ∧ idbFaults (pending_world []) = []
  ∧ ∃ w2 record s,
      initialize (Some idle_core) (Some sample_memory) false (pending_world [])
      = (Normal (Replayed (Some Fulfilled) (Some (Some Fulfilled))), w2)
      ∧ localStorage w2 !! WASMBOY_UNLOAD_STORAGE = None
      ∧ idb w2 !! getCartridgeHeader (Some sample_memory) = Some record
      ∧ co_cartridgeRam record = Some (Array_slice (getCartridgeRam (Some sample_memory)))
      ∧ co_saveStates record
        = Some (default [] (idb (pending_world []) !! getCartridgeHeader (Some sample_memory)
                            ≫= co_saveStates) ++ [s])
      ∧ d_isAuto s = Some true
      ∧ d_date s = Some (now (fresh_world (Some idle_core) (Some sample_memory)))
      ∧ d_wasmBoyMemory s
        = {| wasmBoyInternalState := wasmBoyInternalState (regions sample_memory);
             gameBoyMemory := gameBoyMemory (regions sample_memory);
             cartridgeRam := Some (Array_slice (getCartridgeRam (Some sample_memory))) |}.
Proof.
  assert (localStorage (pending_world [])
          = localStorage (beforeunload (fresh_world (Some idle_core) (Some sample_memory))).2)
    as Hls.
  { destruct (beforeunload_effect sample_memory
                (fresh_world (Some idle_core) (Some sample_memory)) eq_refl)
      as (w' & Hrun & Hls' & _).
    rewrite Hrun. cbn [snd]. rewrite Hls'. symmetry. apply insert_empty. }
  split; [reflexivity|]. split; [exact Hls|]. split; [reflexivity|].
  exact (crash_recovery_round_trip sample_memory
           (fresh_world (Some idle_core) (Some sample_memory)) (pending_world [])
           idle_core (Some sample_memory) false eq_refl Hls eq_refl).
Defined.

(** X20. Decoding a save state keeps the identity of the cartridge: when
    the stored cartridge RAM ends before the header window, the memory left
    by [loadSaveState] has the header it had, so that the save and load
    calls that follow address the same record. *)
Theorem loadSaveState_keeps_header (mem : list Z) (s : SaveStateData) :
  (CARTRIDGE_RAM + length_of (cartridgeRam (d_wasmBoyMemory s))
   ≤ CARTRIDGE_ROM + Z.to_nat 0x0134)%nat →
  ∃ mem', loadSaveState (Some mem) (Some s) = Normal (true, mem')
          ∧ getCartridgeHeader (Some mem') = getCartridgeHeader (Some mem)
          ∧ mem' !! (CARTRIDGE_ROM + Z.to_nat 0x0147)%nat
            = mem !! (CARTRIDGE_ROM + Z.to_nat 0x0147)%nat.
Proof.
  intros Hlen. destruct (loadSaveState_run mem s) as (mem' & Hrun & _ & Hlookup).
  exists mem'. split; [exact Hrun|]. split.
  - apply getCartridgeHeader_ext. intros i Hi.
    rewrite Hlookup. apply loaded_byte_beyond. lia.
  - rewrite Hlookup. apply loaded_byte_beyond. lia.
Qed.

Lemma loadSaveState_keeps_header_witness :
  (CARTRIDGE_RAM + length_of (cartridgeRam (d_wasmBoyMemory short_state))
   ≤ CARTRIDGE_ROM + Z.to_nat 0x0134)%nat
  ∧ ∃ mem', loadSaveState (Some sample_memory) (Some short_state) = Normal (true, mem')
            ∧ getCartridgeHeader (Some mem') = getCartridgeHeader (Some sample_memory)
            ∧ mem' !! (CARTRIDGE_ROM + Z.to_nat 0x0147)%nat
              = sample_memory !! (CARTRIDGE_ROM + Z.to_nat 0x0147)%nat.
Proof.
  assert (CARTRIDGE_RAM + length_of (cartridgeRam (d_wasmBoyMemory short_state))
          ≤ CARTRIDGE_ROM + Z.to_nat 0x0134)%nat as Hlen.
  { unfold CARTRIDGE_RAM, CARTRIDGE_ROM, length_of.
    cbn [short_state d_wasmBoyMemory cartridgeRam default from_option id length]. lia. }
  split; [exact Hlen|].
  exact (loadSaveState_keeps_header sample_memory short_state Hlen).
Defined.

(** X21. [getCartridgeObject] after [saveCartridgeRam()]: with no failure
    scheduled, it yields the record of the header of the memory, whose
    cartridge RAM is what [getCartridgeRam] reads from the memory and whose
    save states are those the store had; reading changes neither the store
    nor the memory. *)
Theorem getCartridgeObject_after_saveCartridgeRam (mem : list Z) (w : World) :
  wasmByteMemory w = Some mem → idbFaults w = [] →
  ∃ r w1 w2 record,
    saveCartridgeRam None None w = (Normal (Some r), w1)
    ∧ getCartridgeObject w1 = (Normal (inr (Some record)), w2)
    ∧ co_cartridgeRam record = getCartridgeRam (Some mem)
    ∧ co_saveStates record = idb w !! getCartridgeHeader (Some mem) ≫= co_saveStates
    ∧ idb w2 = idb w1 ∧ wasmByteMemory w2 = Some mem.
Proof.
  intros Hmem Hfaults.
  destruct (saveCartridgeRam_from_memory mem w Hmem Hfaults)
    as (w1 & Hsave & Hidb & Hfaults1 & Hmem1 & _).
  eexists _, w1, _, _. split; [exact Hsave|].
  unfold getCartridgeObject, bind, gets, idbKeyval_get, next_call_fails.
  rewrite Hmem1, Hfaults1. cbn [head default from_option id]. service_simpl.
  rewrite Hidb, lookup_insert_eq. split; [reflexivity|]. cbn [co_cartridgeRam co_saveStates].
  split; [reflexivity|]. split; [reflexivity|].
  split; service_simpl; [exact Hidb|exact Hmem1].
Qed.

Lemma getCartridgeObject_after_saveCartridgeRam_witness :
  wasmByteMemory (fresh_world (Some idle_core) (Some sample_memory)) = Some sample_memory
  ∧ idbFaults (fresh_world (Some idle_core) (Some sample_memory)) = []
  ∧ ∃ r w1 w2 record,
      saveCartridgeRam None None (fresh_world (Some idle_core) (Some sample_memory))
      = (Normal (Some r), w1)
      ∧ getCartridgeObject w1 = (Normal (inr (Some record)), w2)
      ∧ co_cartridgeRam record = getCartridgeRam (Some sample_memory)
      ∧ co_saveStates record
        = idb (fresh_world (Some idle_core) (Some sample_memory))
            !! getCartridgeHeader (Some sample_memory) ≫= co_saveStates
      ∧ idb w2 = idb w1 ∧ wasmByteMemory w2 = Some sample_memory.
Proof.
  split; [reflexivity|]. split; [reflexivity|].
  exact (getCartridgeObject_after_saveCartridgeRam sample_memory
           (fresh_world (Some idle_core) (Some sample_memory)) eq_refl eq_refl).
Defined.

(** * The tile data view *)

(** Loops can be split, shifted and flattened. *)
Lemma for_loop_add {St : Type} (f : nat → St → St) i n m s :
  for_loop i (n + m) f s = for_loop (i + n) m f (for_loop i n f s).
Proof.
  revert i s. induction n as [|n IH]; intros i s.
  - rewrite for_loop_O. by rewrite Nat.add_0_r.
  - change (S n + m)%nat with (S (n + m)). rewrite !for_loop_S, IH.
    by replace (S i + n)%nat with (i + S n)%nat by lia.
Qed.

Lemma for_loop_shift {St : Type} (f : nat → St → St) k i n s :
  for_loop i n (λ j, f (k + j)%nat) s = for_loop (k + i) n f s.
Proof.
  revert i s. induction n as [|n IH]; intros i s; [done|].
  rewrite !for_loop_S, IH. by replace (k + S i)%nat with (S (k + i)) by lia.
Qed.

Lemma for_loop_nested {St : Type} (f : nat → St → St) W y0 H s :
  for_loop y0 H (λ y s, for_loop 0 W (λ x s, f (y * W + x)%nat s) s) s
  = for_loop (y0 * W) (H * W) f s.
Proof.
  revert y0 s. induction H as [|H IH]; intros y0 s; [done|].
  rewrite for_loop_S, IH.
  change (S H * W)%nat with (W + H * W)%nat. rewrite for_loop_add.
  pose proof (for_loop_shift f (y0 * W) 0 W s) as Hrow.
  rewrite Nat.add_0_r in Hrow.
  change (for_loop 0 W (λ x s, f (y0 * W + x)%nat s) s = for_loop (y0 * W) W f s) in Hrow.
  rewrite Hrow. by replace (S y0 * W)%nat with (y0 * W + W)%nat by lia.
Qed.

Lemma for_loop_invariant {St : Type} (P : nat → St → Prop) (f : nat → St → St) i n s :
  P i s →
  (∀ j s', (i ≤ j < i + n)%nat → P j s' → P (S j) (f j s')) →
  P (i + n)%nat (for_loop i n f s).
Proof.
  revert i s. induction n as [|n IH]; intros i s Hs Hstep.
  - by rewrite Nat.add_0_r.
  - rewrite for_loop_S. replace (i + S n)%nat with (S i + n)%nat by lia.
    apply IH; [apply Hstep; [lia|done]|]. intros j s' Hj. apply Hstep. lia.
Qed.

Lemma tileDataImage_flat (mem : list Z) (map : nat) :
  tileDataImage mem map
  = (for_loop 0 (tileDataYPixels * tileDataXPixels) (tileDataPixel mem map)
       (replicate (tileDataYPixels * tileDataXPixels * 4) 0, replicate 3 0)).1.
Proof.
  unfold tileDataImage. apply (f_equal fst).
  rewrite <- (for_loop_nested (tileDataPixel mem map) tileDataXPixels 0 tileDataYPixels).
  apply for_loop_ext. intros y s _. apply for_loop_ext. intros x s' _.
  unfold tileDataPixel.
  by replace (x + y * tileDataXPixels)%nat with (y * tileDataXPixels + x)%nat by lia.
Qed.

Lemma rgbColor_filled (mem : list Z) (base : nat) (rgb : list Z) :
  length rgb = 3%nat →
  for_loop 0 3 (λ color rgbColor, clampedSet rgbColor color (mem !! (base + color)%nat)) rgb
  = [ToUint8Clamp (mem !! (base + 0)%nat); ToUint8Clamp (mem !! (base + 1)%nat);
     ToUint8Clamp (mem !! (base + 2)%nat)].
Proof.
  intros Hlen. destruct rgb as [|r [|g [|b [|]]]]; try discriminate. reflexivity.
Qed.

Lemma tileDataPixel_spec (mem : list Z) (map p : nat) (image rgb : list Z) :
  length rgb = 3%nat → (p * 4 + 3 < length image)%nat →
  let state := tileDataPixel mem map p (image, rgb) in
  length state.1 = length image ∧ length state.2 = 3%nat ∧
  (∀ c, (c < 4)%nat → state.1 !! (p * 4 + c)%nat = Some (tileDataChannel mem map p c)) ∧
  (∀ k, (k < p * 4 ∨ p * 4 + 4 ≤ k)%nat → state.1 !! k = image !! k).
Proof.
  intros Hrgb Hp. unfold tileDataPixel. cbn [fst snd].
  rewrite (rgbColor_filled mem (map + p * 3) rgb Hrgb).
  cbn [lookup list_lookup]. unfold clampedSet. cbn [ToUint8Clamp].
  assert (Hclamp : ∀ v, Z.max 0 (Z.min 255 (ToUint8Clamp v)) = ToUint8Clamp v)
    by (intros [z|]; cbn [ToUint8Clamp]; lia).
  rewrite !Hclamp. change (Z.max 0 (Z.min 255 255)) with 255.
  split; [by rewrite !length_insert|]. split; [done|]. split.
  - intros c Hc. unfold tileDataChannel.
    destruct c as [|[|[|[|c]]]]; [| | | |lia]; cbn [decide decide_rel].
    + rewrite Nat.add_0_r, !list_lookup_insert_ne by lia.
      rewrite list_lookup_insert_eq by lia. by case_decide; [|lia].
    + rewrite !list_lookup_insert_ne by lia.
      rewrite list_lookup_insert_eq by (rewrite ?length_insert; lia). by case_decide; [|lia].
    + rewrite !list_lookup_insert_ne by lia.
      rewrite list_lookup_insert_eq by (rewrite ?length_insert; lia). by case_decide; [|lia].
    + rewrite list_lookup_insert_eq by (rewrite ?length_insert; lia). by case_decide; [lia|].
  - intros k Hk. by rewrite !list_lookup_insert_ne by lia.
Qed.

Lemma tileDataPixels_spec (mem : list Z) (map n N : nat) :
  (n ≤ N)%nat →
  let state := for_loop 0 n (tileDataPixel mem map) (replicate (N * 4) 0, replicate 3 0) in
  length state.1 = (N * 4)%nat ∧ length state.2 = 3%nat ∧
  ∀ p c, (p < n)%nat → (c < 4)%nat →
    state.1 !! (p * 4 + c)%nat = Some (tileDataChannel mem map p c).
Proof.
  intros Hn.
  apply (for_loop_invariant
    (λ j (state : list Z * list Z),
       (j ≤ N)%nat →
       length state.1 = (N * 4)%nat ∧ length state.2 = 3%nat ∧
       ∀ p c, (p < j)%nat → (c < 4)%nat →
         state.1 !! (p * 4 + c)%nat = Some (tileDataChannel mem map p c))
    (tileDataPixel mem map) 0 n); [| |exact Hn].
  - intros _. cbn [fst snd]. rewrite !length_replicate. split; [done|]. split; [done|]. lia.
  - intros j [image rgb] Hj IH HjN. cbn [fst snd] in IH.
    destruct IH as (Hlen & Hrgb & Hdone); [lia|].
    destruct (tileDataPixel_spec mem map j image rgb Hrgb) as (Hlen' & Hrgb' & Hhit & Hother);
      [lia|].
    split; [congruence|]. split; [done|]. intros p c Hp Hc.
    destruct (decide (p = j)) as [->|Hne]; [by apply Hhit|].
    rewrite Hother by lia. apply Hdone; [lia|done].
Qed.

Lemma tileDataImage_spec (mem : list Z) (map : nat) :
  length (tileDataImage mem map) = (tileDataYPixels * tileDataXPixels * 4)%nat ∧
  ∀ p c, (p < tileDataYPixels * tileDataXPixels)%nat → (c < 4)%nat →
    tileDataImage mem map !! (p * 4 + c)%nat = Some (tileDataChannel mem map p c).
Proof.
  rewrite tileDataImage_flat.
  destruct (tileDataPixels_spec mem map (tileDataYPixels * tileDataXPixels)
              (tileDataYPixels * tileDataXPixels)) as (Hlen & _ & Hpix); [done|].
  split; [exact Hlen|exact Hpix].
Qed.

Lemma tileDataImage_bytes (mem : list Z) (map i : nat) v :
  tileDataImage mem map !! i = Some v → 0 ≤ v ≤ 255.
Proof.
  destruct (tileDataImage_spec mem map) as [Hlen Hpix].
  intros Hv. pose proof (lookup_lt_Some _ _ _ Hv) as Hi. rewrite Hlen in Hi.
  pose proof (Nat.div_mod_eq i 4) as Hdiv.
  pose proof (Nat.mod_upper_bound i 4 ltac:(lia)) as Hmod.
  pose proof (Hpix (i / 4)%nat (i mod 4)%nat ltac:(lia) Hmod) as Hp.
  replace (i / 4 * 4 + i mod 4)%nat with i in Hp by lia.
  rewrite Hp in Hv. injection Hv as <-. unfold tileDataChannel. case_decide; [|lia].
  destruct (mem !! _) as [z|]; cbn [ToUint8Clamp]; lia.
Qed.

Lemma copy_loop_eq (src dst : list Z) :
  length dst = length src → (∀ i v, src !! i = Some v → 0 ≤ v ≤ 255) →
  for_loop 0 (length src) (λ i data, clampedSet data i (src !! i)) dst = src.
Proof.
  intros Hlen Hbytes. apply list_eq. intros k. unfold clampedSet.
  destruct (decide (k < length src)%nat) as [Hk|Hk].
  - rewrite (for_loop_fill_hit (λ i, i) (λ i, ToUint8Clamp (src !! i))); [|done|lia|lia].
    destruct (lookup_lt_is_Some_2 src k Hk) as [v Hv]. rewrite Hv. cbn [ToUint8Clamp].
    apply (f_equal Some). specialize (Hbytes k v Hv). lia.
  - rewrite (for_loop_fill_other (λ i, i) (λ i, ToUint8Clamp (src !! i))) by lia.
    rewrite !lookup_ge_None_2; [done|lia|lia].
Qed.

(** X22. The image of the tile data has four bytes for each pixel of the
    [tileDataXPixels] by [tileDataYPixels] canvas, row by row: for the pixel
    at column [x] of row [y] the first three are the three bytes of the memory
    at [tileDataMap + 3 (y * tileDataXPixels + x)], and the fourth, the alpha,
    is 255. A byte read past the end of the memory gives 0, and every element
    of the image is between 0 and 255. *)
Lemma tileDataImage_pixels (mem : list Z) (map : nat) :
  length (tileDataImage mem map) = (tileDataYPixels * tileDataXPixels * 4)%nat ∧
  (∀ x y c, (x < tileDataXPixels)%nat → (y < tileDataYPixels)%nat → (c < 4)%nat →
     tileDataImage mem map !! ((x + y * tileDataXPixels) * 4 + c)%nat
     = Some (if decide (c < 3)%nat
             then ToUint8Clamp (mem !! (map + (y * tileDataXPixels + x) * 3 + c)%nat)
             else 255)) ∧
  (∀ i v, tileDataImage mem map !! i = Some v → 0 ≤ v ≤ 255).
Proof.
  destruct (tileDataImage_spec mem map) as [Hlen Hpix].
  split; [exact Hlen|]. split; [|apply tileDataImage_bytes]. intros x y c Hx Hy Hc.
  replace (x + y * tileDataXPixels)%nat with (y * tileDataXPixels + x)%nat by lia.
  apply Hpix; [|done].
  apply Nat.lt_le_trans with (S y * tileDataXPixels)%nat.
  - change (S y * tileDataXPixels)%nat with (tileDataXPixels + y * tileDataXPixels)%nat. lia.
  - apply Nat.mul_le_mono_r. lia.
Qed.

(** X23. The view is drawn only when there is a memory and a core, the
    emulator is ready and not paused, and the view should update: then the
    core draws the tile data into the memory and the image made of that
    memory replaces the data of the canvas image, whatever it held, and is
    what is put on the canvas. The promise is fulfilled. *)
Lemma updateCanvas_draws (props : TileDataProps) (mem : list Z)
    (instance : TileDataInstance) (canvasImageData : list Z) :
  props_wasmByteMemory props = Some mem →
  props_wasmInstance props = Some instance →
  props_ready props = true → props_paused props = false →
  props_shouldUpdate props = true →
  length canvasImageData = (tileDataYPixels * tileDataXPixels * 4)%nat →
  let drawn := exports_drawTileDataToWasmMemory instance mem in
  let image := tileDataImage drawn (exports_tileDataMap instance) in
  updateCanvas props canvasImageData
  = (Fulfilled, {| view_memory := Some drawn; view_imageData := image;
                   view_canvas := Some image |}).
Proof.
  intros Hmem Hinstance Hready Hpaused Hupdate Hlen. unfold updateCanvas.
  rewrite Hmem, Hinstance, Hready, Hpaused, Hupdate. cbn [negb orb].
  rewrite copy_loop_eq; [done| |apply tileDataImage_bytes].
  rewrite Hlen. symmetry. apply tileDataImage_spec.
Qed.

Lemma updateCanvas_draws_witness :
  let props := {| props_wasmByteMemory := Some [1; 2; 3];
                  props_wasmInstance :=
                    Some {| exports_drawTileDataToWasmMemory := λ mem, mem;
                            exports_tileDataMap := 0 |};
                  props_ready := true; props_paused := false;
                  props_shouldUpdate := true |} in
  let canvasImageData := replicate (tileDataYPixels * tileDataXPixels * 4) 7 in
  updateCanvas props canvasImageData
  = (Fulfilled, {| view_memory := Some [1; 2; 3];
                   view_imageData := tileDataImage [1; 2; 3] 0;
                   view_canvas := Some (tileDataImage [1; 2; 3] 0) |}).
Proof.
  intros props canvasImageData.
  apply (updateCanvas_draws props [1; 2; 3]
           {| exports_drawTileDataToWasmMemory := λ mem, mem; exports_tileDataMap := 0 |}
           canvasImageData);
    [reflexivity|reflexivity|reflexivity|reflexivity|reflexivity|].
  apply length_replicate.
Defined.

(** X24. The view is left alone otherwise: without a memory or a core,
    before the emulator is ready, while it is paused, or when the view should
    not update, the promise is fulfilled, the core's drawing export is not
    called (the memory is the one given), the data of the canvas image is
    unchanged and nothing is put on the canvas. *)
Lemma updateCanvas_skips (props : TileDataProps) (canvasImageData : list Z) :
  props_wasmByteMemory props = None ∨ props_wasmInstance props = None ∨
  props_ready props = false ∨ props_paused props = true ∨
  props_shouldUpdate props = false →
  updateCanvas props canvasImageData
  = (Fulfilled, {| view_memory := props_wasmByteMemory props;
                   view_imageData := canvasImageData; view_canvas := None |}).
Proof.
  intros Hskip. unfold updateCanvas.
  destruct (props_wasmByteMemory props) as [mem|]; [|done].
  destruct (props_wasmInstance props) as [instance|]; [|done].
  destruct Hskip as [?|[?|[-> | [-> | ->]]]]; try discriminate.
  - done.
  - by rewrite orb_true_r.
  - by rewrite orb_true_r.
Qed.

Lemma updateCanvas_skips_witness :
  updateCanvas {| props_wasmByteMemory := Some [1; 2; 3]; props_wasmInstance := None;
                  props_ready := true; props_paused := true;
                  props_shouldUpdate := true |} [9; 9]
  = (Fulfilled, {| view_memory := Some [1; 2; 3]; view_imageData := [9; 9];
                   view_canvas := None |}).
Proof.
  apply (updateCanvas_skips
           {| props_wasmByteMemory := Some [1; 2; 3]; props_wasmInstance := None;
              props_ready := true; props_paused := true; props_shouldUpdate := true |}
           [9; 9]).
  right. left. reflexivity.
Defined.

(** * The flags of the loaded cartridge *)

Lemma clearMemory_frame (mem : list Z) (w : World) :
  wasmByteMemory w = Some mem →
  ∃ w', clearMemory w = (Normal tt, w')
        ∧ wasmByteMemory w' = Some (replicate (length mem) 0)
        ∧ loadedROM w' = false ∧ loadedRAM w' = false
        ∧ wasmInstance w' = wasmInstance w ∧ idb w' = idb w
        ∧ idbFaults w' = idbFaults w.
Proof.
  intros Hmem. destruct (clearMemory_run mem w Hmem) as (w' & Hrun & Hzero).
  exists w'. split; [exact Hrun|]. split; [exact Hzero|].
  revert Hrun. unfold clearMemory, bind, gets, modify. rewrite Hmem.
  intros [= <-]. by world_simpl.
Qed.

(** X25. [getLoadedCartridgeMemoryState] follows the loading of a
    cartridge. With a memory and a core bound and no failure of the store:
    after [clearMemory] it answers ROM false, RAM false; after the ROM is
    loaded, ROM true, RAM false; after [loadCartridgeRam], ROM true, and RAM
    true exactly when the store holds cartridge RAM under the header of the
    memory left by the load of the ROM. *)
Theorem getLoadedCartridgeMemoryState_follows_loading
    (gameBytes mem : list Z) bootRom instance (w : World) :
  wasmByteMemory w = Some mem → wasmInstance w = Some instance →
  next_call_fails w = false →
  ((clearMemory;; getLoadedCartridgeMemoryState) w).1 = Normal (false, false)
  ∧ ((clearMemory;; loadCartridgeRom gameBytes bootRom;;
      getLoadedCartridgeMemoryState) w).1 = Normal (true, false)
  ∧ ∃ mem',
      wasmByteMemory ((clearMemory;; loadCartridgeRom gameBytes bootRom) w).2 = Some mem'
      ∧ ((clearMemory;; loadCartridgeRom gameBytes bootRom;; loadCartridgeRam;;
          getLoadedCartridgeMemoryState) w).1
        = Normal (true,
                  bool_decide (is_Some (idb w !! getCartridgeHeader (Some mem')
                                          ≫= co_cartridgeRam))).
Proof.
  intros Hmem Hinst Hok.
  destruct (clearMemory_frame mem w Hmem)
    as (w1 & Hclear & Hmem1 & Hrom1 & Hram1 & Hinst1 & Hidb1 & Hfaults1).
  rewrite Hinst in Hinst1.
  pose proof (loadCartridgeRom_run gameBytes _ bootRom instance w1 Hmem1 Hinst1) as Hload.
  set (mem2 := exports_initialize instance 0
                 (rom_loaded gameBytes (replicate (length mem) 0))) in *.
  set (w2 := set_loadedROM true _) in Hload.
  assert (wasmByteMemory w2 = Some mem2) as Hmem2 by reflexivity.
  assert (loadedRAM w2 = false) as Hram2 by (subst w2; service_simpl; exact Hram1).
  assert (idb w2 = idb w) as Hidb2 by (subst w2; service_simpl; exact Hidb1).
  assert (next_call_fails w2 = false) as Hok2.
  { unfold next_call_fails in *. subst w2. service_simpl. by rewrite Hfaults1. }
  split; [|split].
  - unfold bind, getLoadedCartridgeMemoryState, gets. rewrite Hclear. cbn [fst].
    by rewrite Hrom1, Hram1.
  - unfold bind, getLoadedCartridgeMemoryState, gets. rewrite Hclear, Hload. cbn [fst].
    by rewrite Hram2.
  - exists mem2. split.
    + unfold bind. by rewrite Hclear, Hload.
    + pose proof (loadCartridgeRam_run mem2 w2 Hmem2 Hok2) as Hramload.
      unfold bind, getLoadedCartridgeMemoryState, gets.
      rewrite Hclear, Hload, Hramload, Hidb2.
      destruct (idb w !! getCartridgeHeader (Some mem2) ≫= co_cartridgeRam) as [ram|].
      * rewrite bool_decide_true by eauto. reflexivity.
      * rewrite bool_decide_false by (intros [? ?]; discriminate). cbn [fst].
        service_simpl. by rewrite Hram2.
Qed.

Lemma getLoadedCartridgeMemoryState_follows_loading_witness :
  let w := world_with_record {| co_cartridgeRam := Some [1; 2; 3]; co_saveStates := None |} in
  ((clearMemory;; getLoadedCartridgeMemoryState) w).1 = Normal (false, false)
  ∧ ((clearMemory;; loadCartridgeRom [0xC3; 0x00; 0x50] None;;
      getLoadedCartridgeMemoryState) w).1 = Normal (true, false)
  ∧ ∃ mem',
      wasmByteMemory ((clearMemory;; loadCartridgeRom [0xC3; 0x00; 0x50] None) w).2
      = Some mem'
      ∧ ((clearMemory;; loadCartridgeRom [0xC3; 0x00; 0x50] None;; loadCartridgeRam;;
          getLoadedCartridgeMemoryState) w).1
        = Normal (true,
                  bool_decide (is_Some (idb w !! getCartridgeHeader (Some mem')
                                          ≫= co_cartridgeRam))).
Proof.
  intros w.
  exact (getLoadedCartridgeMemoryState_follows_loading [0xC3; 0x00; 0x50] sample_memory None
           idle_core w eq_refl eq_refl eq_refl).
Defined.
